(** * Responsive news dashboard: payout engine, news slice, cache store and
      article source chain

    A shallow embedding of the TypeScript sources
    - [src/redux/payoutSlice.ts]   (rates, per-author aggregation, rescaling),
    - [src/redux/newsSlice.ts]     (validation on arrival, filtering),
    - [src/services/indexedDbService.ts] (the settings store),
    - [src/services/newsService.ts] (the fallback chain),
    followed by the properties the specification states about them. *)

From Stdlib Require Import ZArith PrimFloat Ascii.
From Stdlib Require SpecFloat FloatOps FloatAxioms Uint63.
From stdpp Require Import base option list strings pretty sorting gmap.

#[local] Set Warnings "-clear-no-such-hyp,-inexact-float".
#[local] Open Scope string_scope.
#[local] Open Scope list_scope.

(** ** JavaScript numbers

    A JavaScript [number] is an IEEE-754 binary64 value and [+] rounds to
    nearest-even, which is what the kernel's [PrimFloat.add] computes.  The
    payout code only ever adds numbers starting from the literal [0], so the
    definitions below are written once over an arbitrary carrier with an
    addition and a zero; [float] is the carrier the program runs on. *)

Class JsNumber (num : Type) := {
  num_add : num -> num -> num;
  num_zero : num
}.

#[export] Instance float_JsNumber : JsNumber float :=
  {| num_add := PrimFloat.add; num_zero := 0%float |}.

(** The number that a non-negative integer literal or integer-valued input
    denotes; the conversion is exact from [0] up to [2^53]. *)
Definition number_of_Z (z : Z) : float := PrimFloat.of_uint63 (Uint63.of_Z z).

(** ** Data model ([src/types/index.ts])

    String-typed properties that the reducers test defensively before use are
    [option string]: [None] is an absent ([undefined]) property. *)

Record Source := {
  src_id : option string;
  src_name : string
}.

Record Article := {
  art_id : option string;
  art_title : option string;
  art_description : option string;
  art_content : string;
  art_author : option string;
  art_publishedAt : option string;
  art_url : string;
  art_urlToImage : option string;
  art_source : Source;
  art_type : option string
}.

(** [art.type === 'news'] *)
Definition is_news (ty : option string) : bool :=
  bool_decide (ty = Some "news").

(** A JavaScript [Map] iterates in insertion order and [set] on a key that is
    already present keeps the key's position; keys are compared by value. *)
Module JsMap.
Section JsMap.
Context {K : Type} `{EqDecision K} {V : Type}.

Definition t := list (K * V).

Definition empty : t := [].

Fixpoint has (k : K) (m : t) : bool :=
  match m with
  | [] => false
  | (k', _) :: m' => if decide (k = k') then true else has k m'
  end.

Fixpoint get (k : K) (m : t) : option V :=
  match m with
  | [] => None
  | (k', v) :: m' => if decide (k = k') then Some v else get k m'
  end.

Fixpoint set (k : K) (v : V) (m : t) : t :=
  match m with
  | [] => [(k, v)]
  | (k', v') :: m' =>
      if decide (k = k') then (k, v) :: m' else (k', v') :: set k v m'
  end.

Definition keys (m : t) : list K := m.*1.

Definition values (m : t) : list V := m.*2.
End JsMap.
Arguments t : clear implicits.
End JsMap.

(** ** Payout slice ([src/redux/payoutSlice.ts]) *)

Section PayoutSlice.
Context {num : Type} `{JsNumber num}.

Record PayoutRate := {
  newsRate : num;
  blogRate : num
}.

(** The line item pushed by [calculatePayouts]:
    [{ id, title, type, publishedAt, rate }]. *)
Record PayoutItem := {
  li_id : option string;
  li_title : option string;
  li_type : option string;
  li_publishedAt : option string;
  li_rate : num
}.

Record AuthorPayout := {
  ap_author : option string;
  ap_articleCount : nat;
  ap_totalPayout : num;
  ap_articles : list PayoutItem
}.

Record PayoutState := {
  rates : PayoutRate;
  authorPayouts : list AuthorPayout;
  loading : bool;
  error : option string
}.

(** The body of [articles.forEach(article => ...)].  The object stored in
    the map is mutated through the reference returned by [authors.get];
    here the updated record is written back under its key, which leaves the
    key where it is. *)
Definition calculatePayouts_forEach (state_rates : PayoutRate)
    (authors : JsMap.t (option string) AuthorPayout) (article : Article)
    : JsMap.t (option string) AuthorPayout :=
  let author := art_author article in
  let rate :=
    if is_news (art_type article) then newsRate state_rates
    else blogRate state_rates in
  let authors :=
    if negb (JsMap.has author authors) then
      JsMap.set author
        {| ap_author := author; ap_articleCount := 0;
           ap_totalPayout := num_zero; ap_articles := [] |} authors
    else authors in
  match JsMap.get author authors with
  | Some authorData =>
      JsMap.set author
        {| ap_author := ap_author authorData;
           ap_articleCount := ap_articleCount authorData + 1;
           ap_totalPayout := num_add (ap_totalPayout authorData) rate;
           ap_articles :=
             ap_articles authorData ++
             [ {| li_id := art_id article; li_title := art_title article;
                  li_type := art_type article;
                  li_publishedAt := art_publishedAt article;
                  li_rate := rate |} ] |} authors
  | None => authors
  end.

(** [calculatePayouts] reducer: the payload is the article array. *)
Definition calculatePayouts (state : PayoutState) (payload : list Article)
    : PayoutState :=
  let authors :=
    fold_left (calculatePayouts_forEach (rates state)) payload JsMap.empty in
  {| rates := rates state;
     authorPayouts := JsMap.values authors;
     loading := loading state;
     error := error state |}.

(** The inner [payout.articles.map(...)] of [recalculatePayouts]: it
    returns the updated line items and, through the captured variable
    [totalPayout], the running total. *)
Definition recalculate_articles (rts : PayoutRate)
    (articles : list PayoutItem) : num * list PayoutItem :=
  fold_left
    (fun (acc : num * list PayoutItem) article =>
       let rate :=
         if is_news (li_type article) then newsRate rts else blogRate rts in
       (num_add acc.1 rate,
        acc.2 ++
        [ {| li_id := li_id article; li_title := li_title article;
             li_type := li_type article;
             li_publishedAt := li_publishedAt article;
             li_rate := rate |} ]))
    articles (num_zero, []).

Definition recalculatePayouts (payouts : list AuthorPayout)
    (rts : PayoutRate) : list AuthorPayout :=
  (fun payout =>
     let r := recalculate_articles rts (ap_articles payout) in
     {| ap_author := ap_author payout;
        ap_articleCount := ap_articleCount payout;
        ap_totalPayout := r.1;
        ap_articles := r.2 |})
  <$> payouts.

(** [updateRates] reducer (the [saveRatesToStorage.fulfilled] case does the
    same two assignments). *)
Definition updateRates (state : PayoutState) (payload : PayoutRate)
    : PayoutState :=
  {| rates := payload;
     authorPayouts := recalculatePayouts (authorPayouts state) payload;
     loading := loading state;
     error := error state |}.

Definition clearPayouts (state : PayoutState) : PayoutState :=
  {| rates := rates state;
     authorPayouts := [];
     loading := loading state;
     error := error state |}.
End PayoutSlice.

Arguments PayoutRate : clear implicits.
Arguments PayoutItem : clear implicits.
Arguments AuthorPayout : clear implicits.
Arguments PayoutState : clear implicits.

(** The distinct elements of a list in the order of their first occurrence. *)
Fixpoint first_seen {X : Type} `{EqDecision X} (seen l : list X) : list X :=
  match l with
  | [] => []
  | x :: l' =>
      if decide (x ∈ seen) then first_seen seen l'
      else x :: first_seen (x :: seen) l'
  end.

Definition first_occurrence_order {X : Type} `{EqDecision X} (l : list X)
    : list X :=
  first_seen [] l.

(** Position of the first occurrence of [x] in [l] ([length l] when absent). *)
Fixpoint first_index {X : Type} `{EqDecision X} (x : X) (l : list X) : nat :=
  match l with
  | [] => 0
  | y :: l' => if decide (x = y) then 0 else S (first_index x l')
  end.

(** *** Vocabulary of the payout properties *)

Section PayoutVocabulary.
Context {num : Type} `{JsNumber num}.

(** [xs.reduce((s, x) => s + x, 0)] *)
Definition js_sum (xs : list num) : num := fold_left num_add xs num_zero.

(** The rate applicable to a type under a rate table: [newsRate] for
    ['news'], [blogRate] for ['blog'] and for whatever else the property
    holds. *)
Definition applicableRate (R : PayoutRate num) (ty : option string) : num :=
  if decide (ty = Some "news") then newsRate R else blogRate R.

Definition sum_totalPayout (ps : list (AuthorPayout num)) : num :=
  js_sum (ap_totalPayout <$> ps).

Definition sum_applicable_rates (R : PayoutRate num) (A : list Article) : num :=
  js_sum ((fun a => applicableRate R (art_type a)) <$> A).

Definition sum_item_rates (items : list (PayoutItem num)) : num :=
  js_sum (li_rate <$> items).

(** The articles of [A] attributed to [author], in the order of [A]. *)
Definition articles_of (author : option string) (A : list Article)
    : list Article :=
  filter (fun a => art_author a = author) A.

Definition line_item (R : PayoutRate num) (a : Article) : PayoutItem num :=
  {| li_id := art_id a; li_title := art_title a; li_type := art_type a;
     li_publishedAt := art_publishedAt a;
     li_rate := applicableRate R (art_type a) |}.

(** The aggregate of one author over [A]. *)
Definition aggregate_of (R : PayoutRate num) (A : list Article)
    (author : option string) : AuthorPayout num :=
  let mine := articles_of author A in
  {| ap_author := author;
     ap_articleCount := length mine;
     ap_totalPayout := sum_item_rates (line_item R <$> mine);
     ap_articles := line_item R <$> mine |}.

(** The map that the loop of [calculatePayouts] has built after the
    articles [A]: one entry per author, in first-occurrence order. *)
Definition authors_after (R : PayoutRate num) (A : list Article)
    : JsMap.t (option string) (AuthorPayout num) :=
  (fun author => (author, aggregate_of R A author))
  <$> first_occurrence_order (art_author <$> A).

(** A stored line item with its rate resolved again from its type. *)
Definition rerate (R : PayoutRate num) (it : PayoutItem num) : PayoutItem num :=
  {| li_id := li_id it; li_title := li_title it; li_type := li_type it;
     li_publishedAt := li_publishedAt it;
     li_rate := applicableRate R (li_type it) |}.

(** What [recalculatePayouts] is allowed to change is erased: a line item
    without its rate, an aggregate without its total. *)
Definition item_frame (it : PayoutItem num)
    : option string * option string * option string * option string :=
  (li_id it, li_title it, li_type it, li_publishedAt it).

Definition payout_frame (p : AuthorPayout num) :=
  (ap_author p, ap_articleCount p, item_frame <$> ap_articles p).
End PayoutVocabulary.

(** ** News slice ([src/redux/newsSlice.ts]) *)

(** An element of the array handed to [fetchNewsSuccess], as far as
    [article && typeof article === 'object'] can tell elements apart. *)
Inductive JsEntry :=
  | JsNull
  | JsUndefined
  | JsPrimitive (truthy : bool)
  | JsObject (a : Article).

(** The action payload: an array, or something [Array.isArray] rejects. *)
Inductive JsPayload :=
  | PayloadArray (entries : list JsEntry)
  | PayloadOther.

Definition entry_truthy (e : JsEntry) : bool :=
  match e with
  | JsNull | JsUndefined => false
  | JsPrimitive b => b
  | JsObject _ => true
  end.

(** [typeof e === 'object'] ([typeof null] is ['object'] too). *)
Definition typeof_object (e : JsEntry) : bool :=
  match e with
  | JsNull | JsObject _ => true
  | JsUndefined | JsPrimitive _ => false
  end.

(** Truthiness of a string-or-absent property. *)
Definition str_truthy (s : option string) : bool :=
  match s with
  | Some s => negb (bool_decide (s = ""))
  | None => false
  end.

(** [e.id] as a truth value, for an [e] that is not null or undefined. *)
Definition entry_id_truthy (e : JsEntry) : bool :=
  match e with
  | JsObject a => str_truthy (art_id a)
  | _ => false
  end.

Definition entry_article (e : JsEntry) : option Article :=
  match e with
  | JsObject a => Some a
  | _ => None
  end.

Record FilterState := {
  f_author : option string;
  f_dateFrom : option string;
  f_dateTo : option string;
  f_type : string;
  f_searchQuery : string
}.

Record NewsState := {
  articles : list Article;
  filteredArticles : list Article;
  news_loading : bool;
  news_error : option string
}.

(** [String.prototype.toLowerCase] and [includes], on ASCII text. *)
Definition lower_ascii (c : ascii) : ascii :=
  let n := nat_of_ascii c in
  if (65 <=? n)%nat && (n <=? 90)%nat then ascii_of_nat (n + 32) else c.

Fixpoint toLowerCase (s : string) : string :=
  match s with
  | EmptyString => EmptyString
  | String c s' => String (lower_ascii c) (toLowerCase s')
  end.

Fixpoint starts_with (p s : string) : bool :=
  match p, s with
  | EmptyString, _ => true
  | String _ _, EmptyString => false
  | String a p', String b s' => bool_decide (a = b) && starts_with p' s'
  end.

Fixpoint includes (s sub : string) : bool :=
  starts_with sub s ||
  match s with
  | EmptyString => false
  | String _ s' => includes s' sub
  end.

(** [s && typeof s === 'string' && s.toLowerCase().includes(q)] *)
Definition field_includes (s : option string) (q : string) : bool :=
  match s with
  | Some s => str_truthy (Some s) && includes (toLowerCase s) q
  | None => false
  end.

Section NewsSlice.
(** [new Date(s).getTime()]: the time value in milliseconds, [None] for an
    invalid date (the time value NaN). *)
Variable parseDate : string -> option Z.

(** [fetchNewsSuccess]: nothing in the [try] block can throw, the [catch]
    is not reachable.  Every entry that passes the test is an object, so
    the cleaned array is stored at its element type. *)
Definition fetchNewsSuccess (state : NewsState) (payload : JsPayload)
    : NewsState :=
  let articles :=
    match payload with PayloadArray l => l | PayloadOther => [] end in
  let cleanArticles :=
    filter
      (fun article =>
         entry_truthy article && typeof_object article
         && entry_id_truthy article = true)
      articles in
  {| articles := omap entry_article cleanArticles;
     filteredArticles := omap entry_article cleanArticles;
     news_loading := false;
     news_error := None |}.

(** [a >= b] and [a <= b] on [Date] objects compare the time values; a
    comparison with NaN is false. *)
Definition date_ge (a b : option Z) : bool :=
  match a, b with
  | Some x, Some y => bool_decide (y ≤ x)%Z
  | _, _ => false
  end.

Definition date_le (a b : option Z) : bool :=
  match a, b with
  | Some x, Some y => bool_decide (x ≤ y)%Z
  | _, _ => false
  end.

(** [new Date(article.publishedAt)] behind the guard
    [article.publishedAt && !isNaN(new Date(article.publishedAt).getTime())]. *)
Definition published_instant (article : Article) : option Z :=
  match art_publishedAt article with
  | Some p => if str_truthy (Some p) then parseDate p else None
  | None => None
  end.

Definition filter_author (author : option string) (filtered : list Article)
    : list Article :=
  match author with
  | Some au =>
      if str_truthy (Some au) then
        filter (fun article =>
                  field_includes (art_author article) (toLowerCase au) = true)
               filtered
      else filtered
  | None => filtered
  end.

Definition filter_dateFrom (dateFrom : option string)
    (filtered : list Article) : list Article :=
  match dateFrom with
  | Some d =>
      if str_truthy (Some d) then
        let fromDate := parseDate d in
        filter (fun article =>
                  (match published_instant article with
                   | Some t => date_ge (Some t) fromDate
                   | None => false
                   end) = true)
               filtered
      else filtered
  | None => filtered
  end.

Definition filter_dateTo (dateTo : option string)
    (filtered : list Article) : list Article :=
  match dateTo with
  | Some d =>
      if str_truthy (Some d) then
        let toDate := parseDate d in
        filter (fun article =>
                  (match published_instant article with
                   | Some t => date_le (Some t) toDate
                   | None => false
                   end) = true)
               filtered
      else filtered
  | None => filtered
  end.

Definition filter_type (type : string) (filtered : list Article)
    : list Article :=
  if str_truthy (Some type) && negb (bool_decide (type = "all")) then
    filter (fun article =>
              str_truthy (art_type article)
              && bool_decide (art_type article = Some type) = true)
           filtered
  else filtered.

Definition filter_search (searchQuery : string) (filtered : list Article)
    : list Article :=
  if str_truthy (Some searchQuery) then
    let query := toLowerCase searchQuery in
    filter (fun article =>
              field_includes (art_title article) query
              || field_includes (art_description article) query
              || field_includes (art_author article) query = true)
           filtered
  else filtered.

(** [filterNews]: the five steps in source order.  On an array of objects
    none of them throws, so the [catch] fallback is not taken. *)
Definition filterNews (state : NewsState) (payload : FilterState)
    : NewsState :=
  let filtered := articles state in
  let filtered := filter_author (f_author payload) filtered in
  let filtered := filter_dateFrom (f_dateFrom payload) filtered in
  let filtered := filter_dateTo (f_dateTo payload) filtered in
  let filtered := filter_type (f_type payload) filtered in
  let filtered := filter_search (f_searchQuery payload) filtered in
  {| articles := articles state;
     filteredArticles := filtered;
     news_loading := news_loading state;
     news_error := news_error state |}.
End NewsSlice.

(** *** Vocabulary of the news-slice properties *)

(** An entry that is an object with a non-empty [id]. *)
Definition has_nonempty_id (e : JsEntry) : Prop :=
  match e with
  | JsObject a =>
      match art_id a with
      | Some id => id <> ""
      | None => False
      end
  | _ => False
  end.

#[export] Instance has_nonempty_id_dec e : Decision (has_nonempty_id e).
Proof.
  destruct e as [| |b|a]; cbn; try (right; tauto).
  destruct (art_id a) as [id|]; [apply _|right; tauto].
Defined.

(** A date bound is set when it is a non-empty string. *)
Definition bound_set (bound : option string) : bool :=
  match bound with
  | Some d => negb (bool_decide (d = ""))
  | None => false
  end.

(** The instant an article was published at, when the property is present,
    non-empty and parses. *)
Definition instant_of (parseDate : string -> option Z) (a : Article)
    : option Z :=
  match art_publishedAt a with
  | Some p => if bool_decide (p = "") then None else parseDate p
  | None => None
  end.

(** Inclusive lower bound: an unset bound admits every article; a set bound
    admits the articles whose instant and whose bound both parse, with the
    instant not before the bound. *)
Definition within_lower (parseDate : string -> option Z)
    (bound : option string) (a : Article) : bool :=
  match bound with
  | Some d =>
      if bound_set bound then
        match instant_of parseDate a, parseDate d with
        | Some t, Some lo => bool_decide (lo ≤ t)%Z
        | _, _ => false
        end
      else true
  | None => true
  end.

(** Inclusive upper bound, likewise. *)
Definition within_upper (parseDate : string -> option Z)
    (bound : option string) (a : Article) : bool :=
  match bound with
  | Some d =>
      if bound_set bound then
        match instant_of parseDate a, parseDate d with
        | Some t, Some hi => bool_decide (t ≤ hi)%Z
        | _, _ => false
        end
      else true
  | None => true
  end.

(** The filter state with both date bounds unset. *)
Definition clear_dates (f : FilterState) : FilterState :=
  {| f_author := f_author f; f_dateFrom := None; f_dateTo := None;
     f_type := f_type f; f_searchQuery := f_searchQuery f |}.

(** A reading of [Date] for the examples: the date-only ISO form
    [YYYY-MM-DD] of a calendar day is midnight UTC of that day, in
    milliseconds since the epoch.  It gives [None] on every other string,
    which is what JavaScript does on text that is no date at all, but not
    on the other forms that [new Date] accepts (timestamps, a day past the
    end of its month).  The examples apply it to calendar days in the
    date-only form and to text that is no date; the properties are stated
    for an arbitrary [parseDate]. *)
Definition digit (c : ascii) : option Z :=
  let n := Z.of_nat (nat_of_ascii c) in
  if (48 <=? n)%Z && (n <=? 57)%Z then Some (n - 48)%Z else None.

Definition days_in_month (y m : Z) : Z :=
  if (m =? 2)%Z then
    if ((y mod 4 =? 0) && negb (y mod 100 =? 0) || (y mod 400 =? 0))%Z
    then 29 else 28
  else if ((m =? 4) || (m =? 6) || (m =? 9) || (m =? 11))%Z then 30
  else 31.

Definition days_from_civil (y m d : Z) : Z :=
  let y' := if (m <=? 2)%Z then (y - 1)%Z else y in
  let era := (y' / 400)%Z in
  let yoe := (y' - era * 400)%Z in
  let mp := if (2 <? m)%Z then (m - 3)%Z else (m + 9)%Z in
  let doy := ((153 * mp + 2) / 5 + d - 1)%Z in
  let doe := (yoe * 365 + yoe / 4 - yoe / 100 + doy)%Z in
  (era * 146097 + doe - 719468)%Z.

Definition parseIsoDate (s : string) : option Z :=
  match s with
  | String y1 (String y2 (String y3 (String y4 (String "-"
      (String m1 (String m2 (String "-"
        (String d1 (String d2 EmptyString))))))))) =>
      match digit y1, digit y2, digit y3, digit y4,
            digit m1, digit m2, digit d1, digit d2 with
      | Some a, Some b, Some c, Some d, Some e, Some f, Some g, Some h =>
          let y := (a * 1000 + b * 100 + c * 10 + d)%Z in
          let m := (e * 10 + f)%Z in
          let dd := (g * 10 + h)%Z in
          if ((1 <=? m) && (m <=? 12) && (1 <=? dd)
              && (dd <=? days_in_month y m))%Z
          then Some (days_from_civil y m dd * 86400000)%Z
          else None
      | _, _, _, _, _, _, _, _ => None
      end
  | _ => None
  end.

(** ** Promises

    An [async] function either resolves to a value or rejects; [await] on a
    rejected promise throws, which ends the enclosing function (or is caught
    by the enclosing [try] block). *)
Inductive Promise (A : Type) :=
  | Resolved (value : A)
  | Rejected (reason : string).
Arguments Resolved {A} value.
Arguments Rejected {A} reason.

(** ** Cache store ([src/services/indexedDbService.ts]) *)

Section IndexedDb.
Context {num : Type}.

(** The object written by [store.put({ id: 'payoutRates', ...rates })]. *)
Record SettingsRecord := {
  rec_id : string;
  rec_newsRate : num;
  rec_blogRate : num
}.

(** The rate table carried by a settings record. *)
Definition rec_rates (r : SettingsRecord) : PayoutRate num :=
  {| newsRate := rec_newsRate r; blogRate := rec_blogRate r |}.

(** The three object stores, each indexed by its key path. *)
Record Database := {
  store_articles : gmap string Article;
  store_payouts : gmap string (AuthorPayout num);
  store_settings : gmap string SettingsRecord
}.

(** What the storage layer does to one call: whether opening the database
    fails, whether the transaction of a write fails, whether a read
    request fails. *)
Record StorageEvents := {
  open_error : bool;
  transaction_error : bool;
  request_error : bool
}.

(** [initDB]: the origin's storage holds the database or not yet
    ([None]); [onupgradeneeded] creates the stores on first open. *)
Definition initDB (ev : StorageEvents) (storage : option Database)
    : Promise Database * option Database :=
  if open_error ev then (Rejected "Could not open IndexedDB", storage)
  else
    let db :=
      match storage with
      | Some db => db
      | None =>
          {| store_articles := ∅; store_payouts := ∅; store_settings := ∅ |}
      end in
    (Resolved db, Some db).

(** [savePayoutRates]: a transaction that fails is rolled back. *)
Definition savePayoutRates (ev : StorageEvents) (rts : PayoutRate num)
    (storage : option Database) : Promise unit * option Database :=
  match initDB ev storage with
  | (Rejected e, storage') => (Rejected e, storage')
  | (Resolved db, storage') =>
      let store :=
        <[ "payoutRates" :=
             {| rec_id := "payoutRates"; rec_newsRate := newsRate rts;
                rec_blogRate := blogRate rts |} ]> (store_settings db) in
      if transaction_error ev then (Rejected "transaction error", storage')
      else
        (Resolved (),
         Some {| store_articles := store_articles db;
                 store_payouts := store_payouts db;
                 store_settings := store |})
  end.

(** [getPayoutRates]: resolves [request.result || null]; a stored record
    is an object, hence truthy. *)
Definition getPayoutRates (ev : StorageEvents) (storage : option Database)
    : Promise (option SettingsRecord) * option Database :=
  match initDB ev storage with
  | (Rejected e, storage') => (Rejected e, storage')
  | (Resolved db, storage') =>
      if request_error ev then (Rejected "request error", storage')
      else (Resolved (store_settings db !! "payoutRates"), storage')
  end.
End IndexedDb.

Arguments SettingsRecord : clear implicits.
Arguments Database : clear implicits.

(** What [isOnline] reads from its surroundings. *)
Record BrowserEnv := {
  has_navigator : bool;
  navigator_onLine : bool;
  has_window : bool;
  (** [None]: touching [localStorage] throws. *)
  localStorage : option (gmap string string);
  NODE_ENV : string
}.

Definition isOnline (env : BrowserEnv) : bool :=
  if negb (has_navigator env) then false
  else
    let isNavigatorOnline := navigator_onLine env in
    if negb (has_window env) then isNavigatorOnline
    else
      match localStorage env with
      | Some items =>
          let forceOffline :=
            bool_decide (items !! "force_offline" = Some "true") in
          let isDevelopment := bool_decide (NODE_ENV env = "development") in
          if isDevelopment
             && bool_decide (items !! "force_mock_data" = Some "true")
          then false
          else isNavigatorOnline && negb forceOffline
      | None => isNavigatorOnline
      end.

(** ** Article source chain ([src/services/newsService.ts]) *)

(** The outcome of an HTTP request made through axios: a thrown error
    (network failure, non-2xx status) or a response with its [data]. *)
Inductive HttpResult (D : Type) :=
  | HttpFailure (message : string)
  | HttpResponse (data : D).
Arguments HttpFailure {D} message.
Arguments HttpResponse {D} data.

(** Body of a response of [/api/news]; [route_articles] is [None] when the
    property is not an array. *)
Record RouteData := {
  route_status : string;
  route_articles : option (list Article)
}.

(** Body of a provider response; [provider_articles] is [None] when the
    property is falsy. *)
Record ProviderData := {
  provider_status : string;
  provider_message : option string;
  provider_articles : option (list Article)
}.

(** Everything outside the service that one run of [fetchAllArticles]
    depends on. *)
Record World := {
  NEWS_API_KEY : string;
  (** [axiosInstance.get(`/api/news?type=${type}`)]; [None]: no body *)
  get_api_news : string -> HttpResult (option RouteData);
  (** the provider request for a query and an optional category *)
  get_provider : string -> option string -> HttpResult (option ProviderData);
  browser : BrowserEnv;
  (** outcome of the [saveArticles] call after the mediated fetch *)
  save_after_route : Promise unit;
  (** outcome of the [saveArticles] call after the direct fetch *)
  save_after_direct : Promise unit;
  (** outcome of [getArticles] *)
  cache_read : Promise (list Article);
  (** [Math.floor(Math.random() * 30)] at the call for each index *)
  random_days : nat -> nat;
  (** [toISOString] of today's date moved back by that many days *)
  iso_days_ago : nat -> string
}.

Definition useMockData : bool := false.

Definition fetchFromServerRoute (w : World) (type : string)
    : Promise (list Article) :=
  match get_api_news w type with
  | HttpFailure e => Rejected e
  | HttpResponse None => Rejected "Invalid server route response format"
  | HttpResponse (Some data) =>
      if negb (bool_decide (route_status data = "ok")) then
        Rejected "Invalid server route response format"
      else
        match route_articles data with
        | None => Rejected "Invalid server route response format"
        | Some articles => Resolved articles
        end
  end.

Definition fetchFromNewsAPI (w : World) (query : string)
    (category : option string) : Promise (list Article) :=
  if bool_decide (NEWS_API_KEY w = "") then
    Rejected "News API key not configured"
  else
    match get_provider w query category with
    | HttpFailure e => Rejected e
    | HttpResponse None => Rejected "TypeError"
    | HttpResponse (Some data) =>
        if negb (bool_decide (provider_status data = "ok")) then
          Rejected
            (String.append "News API error: "
               (match provider_message data with
                | Some m => if str_truthy (Some m) then m else "Unknown error"
                | None => "Unknown error"
                end))
        else
          Resolved (match provider_articles data with
                    | Some articles => articles
                    | None => []
                    end)
    end.

Definition mockAuthors : list string :=
  [ "Sarah Johnson"; "Michael Chen"; "Emily Rodriguez"; "David Kim";
    "Jessica Thompson"; "Alex Williams"; "Maria Garcia"; "James Brown" ].

Definition newsTopics : list string :=
  [ "Technology Breakthrough"; "Market Analysis"; "Climate Change Update";
    "Healthcare Innovation"; "Economic Forecast"; "Scientific Discovery";
    "Space Exploration"; "Renewable Energy" ].

Definition blogTopics : list string :=
  [ "Best Practices Guide"; "Industry Insights"; "Professional Tips";
    "Career Advice"; "Productivity Hacks"; "Leadership Strategies";
    "Innovation Trends"; "Success Stories" ].

Definition str_concat (parts : list string) : string :=
  fold_right String.append "" parts.

(** One element of [Array.from({ length: 20 }, (_, index) => ...)]. *)
Definition mockArticle (w : World) (index : nat) : Article :=
  let isNews := negb (index mod 3 =? 0)%nat in
  let topics := if isNews then newsTopics else blogTopics in
  let topic := default "" (topics !! (index mod length topics)) in
  let author := default "" (mockAuthors !! (index mod length mockAuthors)) in
  let daysAgo := random_days w index in
  let n := pretty (index + 1)%nat in
  {| art_id := Some (String.append "mock-" n);
     art_title :=
       Some (str_concat
               [ topic; ": ";
                 if isNews then "Breaking News" else "Expert Analysis";
                 " "; n ]);
     art_description :=
       Some (str_concat
               [ "Comprehensive ";
                 if isNews then "news coverage" else "blog analysis";
                 " of "; toLowerCase topic;
                 " with expert insights and detailed information for our readers." ]);
     art_content :=
       str_concat
         [ "This is a detailed ";
           if isNews then "news article" else "blog post";
           " about "; toLowerCase topic;
           ". It contains comprehensive information, analysis, and insights that would be valuable to readers interested in this topic. The content is substantive and informative, providing real value to the audience." ];
     art_author := Some author;
     art_publishedAt := Some (iso_days_ago w daysAgo);
     art_url := String.append "https://example.com/articles/mock-" n;
     art_urlToImage :=
       Some (String.append "https://picsum.photos/400/300?random=" n);
     art_source :=
       {| src_id := Some (if isNews then "mock-news" else "mock-blog");
          src_name :=
            if isNews then "Mock News Network" else "Professional Blog Hub" |};
     art_type := Some (if isNews then "news" else "blog") |}.

Definition getMockArticles (w : World) : list Article :=
  mockArticle w <$> seq 0 20.

(** A run of [fetchAllArticles] yields the promise it returns and the
    collection handed to the [saveArticles] call that resolved, if one did.
    A call that rejects may still have changed the store: what the store
    holds after a run is [storage_after_fetch] below. *)
Definition Fetched : Type := Promise (list Article) * option (list Article).

(** The [try] block of the mediated fetch: [Some] when it returns, [None]
    when control leaves it without returning (empty result, or an error that
    the [catch] logs). *)
Definition try_server_route (w : World) : option Fetched :=
  match fetchFromServerRoute w "mixed" with
  | Rejected _ => None
  | Resolved articles =>
      if (0 <? length articles)%nat then
        if isOnline (browser w) then
          match save_after_route w with
          | Rejected _ => None
          | Resolved _ => Some (Resolved articles, Some articles)
          end
        else Some (Resolved articles, None)
      else None
  end.

(** The [try] block of the direct calls; [Promise.allSettled] does not
    reject, fulfilled branches are concatenated in call order. *)
Definition try_direct_api (w : World) : option Fetched :=
  let techArticles := fetchFromNewsAPI w "technology" None in
  let generalArticles := fetchFromNewsAPI w "business" None in
  let articles : list Article := [] in
  let articles :=
    match techArticles with
    | Resolved value => articles ++ value
    | Rejected _ => articles
    end in
  let articles :=
    match generalArticles with
    | Resolved value => articles ++ value
    | Rejected _ => articles
    end in
  if (0 <? length articles)%nat then
    match save_after_direct w with
    | Rejected _ => None
    | Resolved _ => Some (Resolved articles, Some articles)
    end
  else None.

(** The [try] block of the cache read. *)
Definition try_offline_storage (w : World) : option Fetched :=
  match cache_read w with
  | Rejected _ => None
  | Resolved cachedArticles =>
      if (0 <? length cachedArticles)%nat then
        Some (Resolved cachedArticles, None)
      else None
  end.

Definition fetchAllArticles (w : World) : Fetched :=
  if useMockData then (Resolved (getMockArticles w), None)
  else
    match try_server_route w with
    | Some r => r
    | None =>
        match try_direct_api w with
        | Some r => r
        | None =>
            match try_offline_storage w with
            | Some r => r
            | None => (Resolved (getMockArticles w), None)
            end
        end
    end.

(** ** Sample data *)

(** The state the payout slice starts in: [{ newsRate: 50, blogRate: 100 }],
    no aggregates. *)
Definition initialState : PayoutState float :=
  {| rates := {| newsRate := 50%float; blogRate := 100%float |};
     authorPayouts := []; loading := false; error := None |}.

Definition mkArticle (id author type : string) : Article :=
  {| art_id := Some id; art_title := Some (String.append "Article " id);
     art_description := Some ""; art_content := "";
     art_author := Some author;
     art_publishedAt := Some "2024-01-15";
     art_url := ""; art_urlToImage := None;
     art_source := {| src_id := None; src_name := "News API" |};
     art_type := Some type |}.

(** The scenario of the specification: authors A, B, A. *)
Definition scenario_articles : list Article :=
  [ mkArticle "1" "A" "news"; mkArticle "2" "B" "blog";
    mkArticle "3" "A" "blog" ].

(** Fractional rates, as the settings form allows ([step="0.01"]). *)
Definition fractional_rates : PayoutRate float :=
  {| newsRate := 0.5%float; blogRate := 0.1%float |}.

Definition fractional_state : PayoutState float :=
  {| rates := fractional_rates; authorPayouts := [];
     loading := false; error := None |}.

Definition fractional_articles : list Article :=
  [ mkArticle "1" "A" "news"; mkArticle "2" "A" "news";
    mkArticle "3" "B" "blog"; mkArticle "4" "B" "blog" ].

(** A state over exact amounts. *)
Definition exact_state : PayoutState Z :=
  {| rates := {| newsRate := 50%Z; blogRate := 100%Z |};
     authorPayouts := []; loading := false; error := None |}.

(** An article whose type is outside the declared ['news' | 'blog']. *)
Definition podcast_article : Article := mkArticle "9" "C" "podcast".

(** A news state holding one article published on 2024-01-15. *)
Definition one_article_state : NewsState :=
  {| articles := [ mkArticle "1" "A" "news" ];
     filteredArticles := [ mkArticle "1" "A" "news" ];
     news_loading := false; news_error := None |}.

Definition emptyNewsState : NewsState :=
  {| articles := []; filteredArticles := [];
     news_loading := false; news_error := None |}.

(** The all-pass filter with a lower bound that is not a date. *)
Definition unparseable_from : FilterState :=
  {| f_author := None; f_dateFrom := Some "not-a-date"; f_dateTo := None;
     f_type := "all"; f_searchQuery := "" |}.

(** Storage events of a call on which nothing fails. *)
Definition no_errors : StorageEvents :=
  {| open_error := false; transaction_error := false; request_error := false |}.

(** A browser storage in which no rate record has been saved: the database
    does not exist yet, or its settings store has nothing under the key. *)
Definition never_saved {num : Type} (storage : option (Database num)) : Prop :=
  match storage with
  | Some db => store_settings db !! "payoutRates" = None
  | None => True
  end.

(** A world in which every source fails: no API key, both endpoints
    unreachable, the cache store unavailable. *)
Definition offline_world : World :=
  {| NEWS_API_KEY := "";
     get_api_news := fun _ => HttpFailure "Network Error";
     get_provider := fun _ _ => HttpFailure "Network Error";
     browser := {| has_navigator := true; navigator_onLine := false;
                   has_window := true; localStorage := Some ∅;
                   NODE_ENV := "production" |};
     save_after_route := Rejected "QuotaExceededError";
     save_after_direct := Rejected "QuotaExceededError";
     cache_read := Rejected "Could not open IndexedDB";
     random_days := fun i => (i * 7) mod 30;
     iso_days_ago := fun _ => "2024-01-15T10:00:00.000Z" |}.

(** ** The remaining cases of the payout slice ([extraReducers]) *)

Section PayoutExtraReducers.
Context {num : Type} `{JsNumber num}.

(** [action.error.message || fallback] *)
Definition message_or (message : option string) (fallback : string) : string :=
  match message with
  | Some m => if str_truthy (Some m) then m else fallback
  | None => fallback
  end.

Definition loadRatesFromStorage_pending (state : PayoutState num)
    : PayoutState num :=
  {| rates := rates state; authorPayouts := authorPayouts state;
     loading := true; error := None |}.

(** The payload is what [getPayoutRates] resolved to: the stored record or
    null.  The rates are replaced; the aggregates are not touched. *)
Definition loadRatesFromStorage_fulfilled (state : PayoutState num)
    (payload : option (SettingsRecord num)) : PayoutState num :=
  {| rates := match payload with
              | Some rec => rec_rates rec
              | None => rates state
              end;
     authorPayouts := authorPayouts state;
     loading := false; error := error state |}.

Definition loadRatesFromStorage_rejected (state : PayoutState num)
    (message : option string) : PayoutState num :=
  {| rates := rates state; authorPayouts := authorPayouts state;
     loading := false;
     error := Some (message_or message "Failed to load rates") |}.

Definition loadPayoutsFromStorage_pending (state : PayoutState num)
    : PayoutState num :=
  {| rates := rates state; authorPayouts := authorPayouts state;
     loading := true; error := None |}.

(** [if (action.payload && action.payload.length > 0)] *)
Definition loadPayoutsFromStorage_fulfilled (state : PayoutState num)
    (payload : list (AuthorPayout num)) : PayoutState num :=
  {| rates := rates state;
     authorPayouts :=
       if (0 <? length payload)%nat then payload else authorPayouts state;
     loading := false; error := error state |}.

Definition loadPayoutsFromStorage_rejected (state : PayoutState num)
    (message : option string) : PayoutState num :=
  {| rates := rates state; authorPayouts := authorPayouts state;
     loading := false;
     error := Some (message_or message "Failed to load payouts") |}.

Definition saveRatesToStorage_fulfilled (state : PayoutState num)
    (payload : PayoutRate num) : PayoutState num :=
  {| rates := payload;
     authorPayouts := recalculatePayouts (authorPayouts state) payload;
     loading := loading state; error := error state |}.

Definition savePayoutsToStorage_fulfilled (state : PayoutState num)
    (payload : list (AuthorPayout num)) : PayoutState num :=
  {| rates := rates state; authorPayouts := payload;
     loading := loading state; error := error state |}.

(** The actions the slice reacts to. *)
Inductive PayoutAction :=
  | UpdateRates (payload : PayoutRate num)
  | CalculatePayouts (payload : list Article)
  | ClearPayouts
  | LoadRatesPending
  | LoadRatesFulfilled (payload : option (SettingsRecord num))
  | LoadRatesRejected (message : option string)
  | LoadPayoutsPending
  | LoadPayoutsFulfilled (payload : list (AuthorPayout num))
  | LoadPayoutsRejected (message : option string)
  | SaveRatesFulfilled (payload : PayoutRate num)
  | SavePayoutsFulfilled (payload : list (AuthorPayout num)).

Definition payoutReducer (state : PayoutState num) (action : PayoutAction)
    : PayoutState num :=
  match action with
  | UpdateRates r => updateRates state r
  | CalculatePayouts A => calculatePayouts state A
  | ClearPayouts => clearPayouts state
  | LoadRatesPending => loadRatesFromStorage_pending state
  | LoadRatesFulfilled payload => loadRatesFromStorage_fulfilled state payload
  | LoadRatesRejected m => loadRatesFromStorage_rejected state m
  | LoadPayoutsPending => loadPayoutsFromStorage_pending state
  | LoadPayoutsFulfilled payload => loadPayoutsFromStorage_fulfilled state payload
  | LoadPayoutsRejected m => loadPayoutsFromStorage_rejected state m
  | SaveRatesFulfilled r => saveRatesToStorage_fulfilled state r
  | SavePayoutsFulfilled payload => savePayoutsToStorage_fulfilled state payload
  end.

(** Actions that bring nothing in from storage: the reducers proper, rate
    saves, and loads that found nothing or failed. *)
Definition local_action (action : PayoutAction) : Prop :=
  match action with
  | LoadRatesFulfilled (Some _) => False
  | LoadPayoutsFulfilled (_ :: _) => False
  | SavePayoutsFulfilled _ => False
  | _ => True
  end.

(** The article batch the aggregates currently stand for. *)
Definition batch_after (batch : list Article) (action : PayoutAction)
    : list Article :=
  match action with
  | CalculatePayouts A => A
  | ClearPayouts => []
  | _ => batch
  end.
End PayoutExtraReducers.

Arguments PayoutAction : clear implicits.

(** ** The remaining reducers of the news slice, and the filter slice *)

(** [initialState] of the news slice. *)
Definition newsInitialState : NewsState :=
  {| articles := []; filteredArticles := [];
     news_loading := false; news_error := None |}.

Definition fetchNewsStart (state : NewsState) : NewsState :=
  {| articles := articles state; filteredArticles := filteredArticles state;
     news_loading := true; news_error := None |}.

Definition fetchNewsFailure (state : NewsState) (payload : string) : NewsState :=
  {| articles := articles state; filteredArticles := filteredArticles state;
     news_loading := false; news_error := Some payload |}.

Definition clearNews (state : NewsState) : NewsState :=
  {| articles := []; filteredArticles := [];
     news_loading := news_loading state; news_error := news_error state |}.

Inductive NewsAction :=
  | FetchNewsStart
  | FetchNewsSuccess (payload : JsPayload)
  | FetchNewsFailure (payload : string)
  | ClearNews
  | FilterNews (payload : FilterState).

Definition newsReducer (parseDate : string -> option Z) (state : NewsState)
    (action : NewsAction) : NewsState :=
  match action with
  | FetchNewsStart => fetchNewsStart state
  | FetchNewsSuccess payload => fetchNewsSuccess state payload
  | FetchNewsFailure payload => fetchNewsFailure state payload
  | ClearNews => clearNews state
  | FilterNews payload => filterNews parseDate state payload
  end.

(** [initialState] of the filter slice. *)
Definition filterInitialState : FilterState :=
  {| f_author := None; f_dateFrom := None; f_dateTo := None;
     f_type := "all"; f_searchQuery := "" |}.

Definition setAuthorFilter (state : FilterState) (payload : option string)
    : FilterState :=
  {| f_author := payload; f_dateFrom := f_dateFrom state;
     f_dateTo := f_dateTo state; f_type := f_type state;
     f_searchQuery := f_searchQuery state |}.

(** The payload is [{ from, to }]. *)
Definition setDateRangeFilter (state : FilterState)
    (payload : option string * option string) : FilterState :=
  {| f_author := f_author state; f_dateFrom := payload.1;
     f_dateTo := payload.2; f_type := f_type state;
     f_searchQuery := f_searchQuery state |}.

Definition setTypeFilter (state : FilterState) (payload : string) : FilterState :=
  {| f_author := f_author state; f_dateFrom := f_dateFrom state;
     f_dateTo := f_dateTo state; f_type := payload;
     f_searchQuery := f_searchQuery state |}.

Definition setSearchQuery (state : FilterState) (payload : string) : FilterState :=
  {| f_author := f_author state; f_dateFrom := f_dateFrom state;
     f_dateTo := f_dateTo state; f_type := f_type state;
     f_searchQuery := payload |}.

Definition clearFilters (state : FilterState) : FilterState :=
  {| f_author := None; f_dateFrom := None; f_dateTo := None;
     f_type := "all"; f_searchQuery := "" |}.

(** *** Vocabulary: what each criterion asks of an article *)

(** Case-insensitive containment of a criterion in a property that has to be
    present and non-empty. *)
Definition contains_ci (property : option string) (criterion : string) : bool :=
  match property with
  | Some s => negb (bool_decide (s = ""))
              && includes (toLowerCase s) (toLowerCase criterion)
  | None => false
  end.

Definition author_matches (criterion : option string) (a : Article) : bool :=
  match criterion with
  | Some au => if bool_decide (au = "") then true
               else contains_ci (art_author a) au
  | None => true
  end.

Definition type_matches (criterion : string) (a : Article) : bool :=
  if bool_decide (criterion = "") || bool_decide (criterion = "all") then true
  else bool_decide (art_type a = Some criterion).

Definition search_matches (query : string) (a : Article) : bool :=
  if bool_decide (query = "") then true
  else contains_ci (art_title a) query
       || contains_ci (art_description a) query
       || contains_ci (art_author a) query.

(** Text made of ASCII characters only: on such text [toLowerCase] above is
    [String.prototype.toLowerCase], which outside ASCII lowers every cased
    letter. *)
Fixpoint ascii_text (s : string) : bool :=
  match s with
  | EmptyString => true
  | String c s' => (nat_of_ascii c <? 128)%nat && ascii_text s'
  end.

Definition ascii_property (s : option string) : bool :=
  from_option ascii_text true s.

(** The properties of an article and of a filter state that the filters
    lower. *)
Definition ascii_article (a : Article) : bool :=
  ascii_property (art_author a) && ascii_property (art_title a)
  && ascii_property (art_description a).

Definition ascii_filter (f : FilterState) : bool :=
  ascii_property (f_author f) && ascii_text (f_searchQuery f).

(** All five criteria at once. *)
Definition matches (parseDate : string -> option Z) (f : FilterState)
    (a : Article) : bool :=
  author_matches (f_author f) a
  && within_lower parseDate (f_dateFrom f) a
  && within_upper parseDate (f_dateTo f) a
  && type_matches (f_type f) a
  && search_matches (f_searchQuery f) a.

(** An article with a non-empty id. *)
Definition valid_article (a : Article) : Prop :=
  exists id, art_id a = Some id /\ id <> "".

(** ** The article and payout stores ([src/services/indexedDbService.ts]) *)

(** Records of an object store are read in ascending key order. *)
Definition key_le {V : Type} (x y : string * V) : Prop := String.le x.1 y.1.

#[export] Instance key_le_dec {V : Type} : RelDecision (@key_le V).
Proof. intros x y. unfold key_le. apply _. Defined.

(** [store.getAll()]: the stored values with their keys, by ascending key. *)
Definition getAll_entries {V : Type} (store : gmap string V)
    : list (string * V) :=
  merge_sort key_le (map_to_list store).

Definition getAll {V : Type} (store : gmap string V) : list V :=
  (getAll_entries store).*2.

(** [values.forEach(v => store.add(v))]: the adds that are issued, with the
    key taken from the key path.  [add] throws a DataError on a value whose
    key property is missing, which ends the loop: the flag tells whether
    that happened. *)
Fixpoint issued_adds {V : Type} (key : V -> option string) (values : list V)
    : list (string * V) * bool :=
  match values with
  | [] => ([], false)
  | v :: values' =>
      match key v with
      | None => ([], true)
      | Some k =>
          let rest := issued_adds key values' in
          ((k, v) :: rest.1, rest.2)
      end
  end.

(** The issued adds carried out in order; [None] when an add finds its key
    taken (ConstraintError), which aborts the transaction. *)
Fixpoint run_adds {V : Type} (adds : list (string * V)) (store : gmap string V)
    : option (gmap string V) :=
  match adds with
  | [] => Some store
  | (k, v) :: adds' =>
      match store !! k with
      | Some _ => None
      | None => run_adds adds' (<[k := v]> store)
      end
  end.

(** [store.clear()] followed by the adds, in one transaction.  The outcome
    is the promise and the new content of the store, [None] when the
    transaction was aborted and the store is as before.  A DataError
    rejects the promise at once but does not abort the transaction: what
    was issued before it is committed. *)
Definition replace_store {V : Type} (ev : StorageEvents)
    (key : V -> option string) (values : list V)
    : Promise unit * option (gmap string V) :=
  let adds := issued_adds key values in
  match run_adds adds.1 ∅ with
  | None => (Rejected (if adds.2 then "DataError" else "ConstraintError"), None)
  | Some store =>
      if transaction_error ev then
        (Rejected (if adds.2 then "DataError" else "transaction error"), None)
      else
        (if adds.2 then Rejected "DataError" else Resolved (), Some store)
  end.

Section ObjectStores.
Context {num : Type}.

Definition saveArticles (ev : StorageEvents) (articles : list Article)
    (storage : option (Database num)) : Promise unit * option (Database num) :=
  match initDB ev storage with
  | (Rejected e, storage') => (Rejected e, storage')
  | (Resolved db, storage') =>
      let r := replace_store ev art_id articles in
      (r.1,
       match r.2 with
       | Some store =>
           Some {| store_articles := store;
                   store_payouts := store_payouts db;
                   store_settings := store_settings db |}
       | None => storage'
       end)
  end.

Definition getArticles (ev : StorageEvents) (storage : option (Database num))
    : Promise (list Article) * option (Database num) :=
  match initDB ev storage with
  | (Rejected e, storage') => (Rejected e, storage')
  | (Resolved db, storage') =>
      if request_error ev then (Rejected "request error", storage')
      else (Resolved (getAll (store_articles db)), storage')
  end.

Definition savePayouts (ev : StorageEvents) (payouts : list (AuthorPayout num))
    (storage : option (Database num)) : Promise unit * option (Database num) :=
  match initDB ev storage with
  | (Rejected e, storage') => (Rejected e, storage')
  | (Resolved db, storage') =>
      let r := replace_store ev ap_author payouts in
      (r.1,
       match r.2 with
       | Some store =>
           Some {| store_articles := store_articles db;
                   store_payouts := store;
                   store_settings := store_settings db |}
       | None => storage'
       end)
  end.

Definition getPayouts (ev : StorageEvents) (storage : option (Database num))
    : Promise (list (AuthorPayout num)) * option (Database num) :=
  match initDB ev storage with
  | (Rejected e, storage') => (Rejected e, storage')
  | (Resolved db, storage') =>
      if request_error ev then (Rejected "request error", storage')
      else (Resolved (getAll (store_payouts db)), storage')
  end.

(** [clearDatabase]: the three stores are cleared in one transaction. *)
Definition clearDatabase (ev : StorageEvents) (storage : option (Database num))
    : Promise unit * option (Database num) :=
  match initDB ev storage with
  | (Rejected e, storage') => (Rejected e, storage')
  | (Resolved db, storage') =>
      if transaction_error ev then (Rejected "transaction error", storage')
      else
        (Resolved (),
         Some {| store_articles := ∅; store_payouts := ∅;
                 store_settings := ∅ |})
  end.
End ObjectStores.

(** Ascending ids, for two articles that have one. *)
Definition id_le (a b : Article) : Prop :=
  match art_id a, art_id b with
  | Some x, Some y => String.le x y
  | _, _ => False
  end.

(** ** The server route ([src/app/api/news/route.ts]) *)

(** An article as the provider sends it; any property may be absent. *)
Record RawArticle := {
  raw_title : option string;
  raw_description : option string;
  raw_content : option string;
  raw_author : option string;
  raw_publishedAt : option string;
  raw_url : option string;
  raw_urlToImage : option string;
  (** [source], with its [id] and [name] *)
  raw_source : option (option string * option string)
}.

(** The two provider requests the route can make. *)
Inductive ProviderRequest :=
  | TopHeadlines (category : string)
  | Everything (q : string).

(** What the route sends back: [{ status: 'ok', articles }], or the error
    body with HTTP status 500. *)
Inductive RouteResponse :=
  | RouteOk (articles : list Article)
  | RouteError (message : string).

(** [value || fallback] on a string-or-absent value. *)
Definition str_or (value : option string) (fallback : string) : string :=
  match value with
  | Some v => if str_truthy (Some v) then v else fallback
  | None => fallback
  end.

(** The element function of [response.data.articles.map(...)]; [now] is
    [Date.now()] and [nowIso] is [new Date().toISOString()] at that call. *)
Definition route_article (type : string) (now : nat) (nowIso : string)
    (index : nat) (article : RawArticle) : Article :=
  {| art_id := Some (str_concat [ type; "-"; pretty index; "-"; pretty now ]);
     art_title := Some (str_or (raw_title article) "Untitled Article");
     art_description := Some (str_or (raw_description article) "");
     art_content := str_or (raw_content article) "";
     art_author := Some (str_or (raw_author article) "Unknown Author");
     art_publishedAt := Some (str_or (raw_publishedAt article) nowIso);
     art_url := str_or (raw_url article) "";
     art_urlToImage := Some (str_or (raw_urlToImage article) "");
     art_source :=
       {| src_id :=
            match raw_source article with
            | Some (Some i, _) => if str_truthy (Some i) then Some i else None
            | _ => None
            end;
          src_name :=
            match raw_source article with
            | Some (_, name) => str_or name "News API"
            | None => "News API"
            end |};
     art_type := Some (if bool_decide (type = "headlines") then "news" else "blog") |}.

(** [GET]: the query parameters [category] and [type] of the request, the
    provider behind it, and the clock. *)
Definition route_GET (param_category param_type : option string)
    (provider : ProviderRequest -> HttpResult (option (option (list RawArticle))))
    (now : nat -> nat) (nowIso : nat -> string) : RouteResponse :=
  let category := str_or param_category "general" in
  let type := str_or param_type "headlines" in
  let response :=
    if bool_decide (type = "headlines") then provider (TopHeadlines category)
    else provider (Everything (if bool_decide (type = "blog")
                               then "technology blog" else "technology news")) in
  match response with
  | HttpFailure e => RouteError e
  | HttpResponse None => RouteError "Invalid API response format"
  | HttpResponse (Some None) => RouteError "Invalid API response format"
  | HttpResponse (Some (Some articles)) =>
      RouteOk (imap (fun index article =>
                       route_article type (now index) (nowIso index) index article)
                    articles)
  end.

(** What axios makes of the route's answer on the client. *)
Definition route_to_client (r : RouteResponse) : HttpResult (option RouteData) :=
  match r with
  | RouteOk articles =>
      HttpResponse (Some {| route_status := "ok";
                            route_articles := Some articles |})
  | RouteError e => HttpFailure e
  end.

(** ** Worlds for the article source chain *)

(** The world in which the mediated fetch is down. *)
Definition with_route_down (w : World) : World :=
  {| NEWS_API_KEY := NEWS_API_KEY w;
     get_api_news := fun _ => HttpFailure "Network Error";
     get_provider := get_provider w;
     browser := browser w;
     save_after_route := save_after_route w;
     save_after_direct := save_after_direct w;
     cache_read := cache_read w;
     random_days := random_days w;
     iso_days_ago := iso_days_ago w |}.

(** The directly fetched articles: fulfilled branches, first query first. *)
Definition direct_articles (w : World) : list Article :=
  match fetchFromNewsAPI w "technology" None with
  | Resolved value => value
  | Rejected _ => []
  end
  ++ match fetchFromNewsAPI w "business" None with
     | Resolved value => value
     | Rejected _ => []
     end.

(** The world whose cache outcomes are the ones the cache store gives on a
    browser storage: the write after the mediated fetch runs on [storage],
    the write after the direct fetch on what the first write left, and the
    cache read on what both left. *)
Definition storage_after_route {num : Type} (ev : StorageEvents) (w : World)
    (storage : option (Database num)) : Promise unit * option (Database num) :=
  match fetchFromServerRoute w "mixed" with
  | Resolved articles =>
      if (0 <? length articles)%nat && isOnline (browser w)
      then saveArticles ev articles storage
      else (Resolved (), storage)
  | Rejected _ => (Resolved (), storage)
  end.

Definition storage_after_direct {num : Type} (ev : StorageEvents) (w : World)
    (storage : option (Database num)) : Promise unit * option (Database num) :=
  if (0 <? length (direct_articles w))%nat
  then saveArticles ev (direct_articles w) (storage_after_route ev w storage).2
  else (Resolved (), (storage_after_route ev w storage).2).

Definition on_storage {num : Type} (ev : StorageEvents) (w : World)
    (storage : option (Database num)) : World :=
  {| NEWS_API_KEY := NEWS_API_KEY w;
     get_api_news := get_api_news w;
     get_provider := get_provider w;
     browser := browser w;
     save_after_route := (storage_after_route ev w storage).1;
     save_after_direct := (storage_after_direct ev w storage).1;
     cache_read := (getArticles ev (storage_after_direct ev w storage).2).1;
     random_days := random_days w;
     iso_days_ago := iso_days_ago w |}.

(** The browser storage after a run of [fetchAllArticles] on it.  The write
    of the mediated step happens first; the direct step, and with it its
    write, is reached only when the mediated step did not return.  The
    cache read and the synthetic articles write nothing. *)
Definition storage_after_fetch {num : Type} (ev : StorageEvents) (w : World)
    (storage : option (Database num)) : option (Database num) :=
  match try_server_route (on_storage ev w storage) with
  | Some _ => (storage_after_route ev w storage).2
  | None => (storage_after_direct ev w storage).2
  end.

(** The world whose mediated endpoint is the server route in front of a
    provider; the client sends only the [type] parameter. *)
Definition served_by_route (w : World)
    (provider : ProviderRequest -> HttpResult (option (option (list RawArticle))))
    (now : nat -> nat) (nowIso : nat -> string) : World :=
  {| NEWS_API_KEY := NEWS_API_KEY w;
     get_api_news := fun type =>
       route_to_client (route_GET None (Some type) provider now nowIso);
     get_provider := get_provider w;
     browser := browser w;
     save_after_route := save_after_route w;
     save_after_direct := save_after_direct w;
     cache_read := cache_read w;
     random_days := random_days w;
     iso_days_ago := iso_days_ago w |}.

(** An article ready for display and payout: id, title and author present
    and non-empty, type one of the two declared ones. *)
Definition well_formed_article (a : Article) : Prop :=
  valid_article a
  /\ (exists t, art_title a = Some t /\ t <> "")
  /\ (exists au, art_author a = Some au /\ au <> "")
  /\ (art_type a = Some "news" \/ art_type a = Some "blog").

(** [well_formed_article] as a test. *)
Definition well_formed_articleb (a : Article) : bool :=
  str_truthy (art_id a) && str_truthy (art_title a) && str_truthy (art_author a)
  && (bool_decide (art_type a = Some "news")
      || bool_decide (art_type a = Some "blog")).

(** A world for the examples of the chain: the route is down, an API key
    is configured, and the provider answers the technology query with one
    article that, as provider articles do, has no [id]. *)
Definition provider_article : Article :=
  {| art_id := None; art_title := Some "Chips";
     art_description := Some ""; art_content := "";
     art_author := Some "A"; art_publishedAt := Some "2024-01-15";
     art_url := ""; art_urlToImage := None;
     art_source := {| src_id := None; src_name := "Wire" |};
     art_type := None |}.

Definition direct_only_world : World :=
  {| NEWS_API_KEY := "key";
     get_api_news := fun _ => HttpFailure "Network Error";
     get_provider := fun query _ =>
       if bool_decide (query = "technology") then
         HttpResponse (Some {| provider_status := "ok";
                               provider_message := None;
                               provider_articles := Some [ provider_article ] |})
       else HttpFailure "Network Error";
     browser := {| has_navigator := true; navigator_onLine := true;
                   has_window := true; localStorage := Some ∅;
                   NODE_ENV := "production" |};
     save_after_route := Resolved ();
     save_after_direct := Resolved ();
     cache_read := Resolved [];
     random_days := fun i => (i * 7) mod 30;
     iso_days_ago := fun _ => "2024-01-15T10:00:00.000Z" |}.

(** A browser storage whose article store holds one article. *)
Definition cached_storage : option (Database Z) :=
  Some {| store_articles := {[ "1" := mkArticle "1" "A" "news" ]};
          store_payouts := ∅; store_settings := ∅ |}.

(** ** The article grid and its pager ([src/components/news/NewsGrid.tsx],
    [src/components/ui/Pagination.tsx]) *)

(** [xs.slice(start, end)]: a negative index counts from the end, indices
    are clamped to the array. *)
Definition js_slice {X : Type} (xs : list X) (start end_ : Z) : list X :=
  let len := Z.of_nat (length xs) in
  let k := if (start <? 0)%Z then Z.max (len + start) 0 else Z.min start len in
  let final := if (end_ <? 0)%Z then Z.max (len + end_) 0 else Z.min end_ len in
  take (Z.to_nat (final - k)) (drop (Z.to_nat k) xs).

Definition itemsPerPage : Z := 9.

(** The articles shown on a page of the grid. *)
Definition currentArticles (articles : list Article) (currentPage : Z)
    : list Article :=
  let indexOfLastItem := (currentPage * itemsPerPage)%Z in
  let indexOfFirstItem := (indexOfLastItem - itemsPerPage)%Z in
  js_slice articles indexOfFirstItem indexOfLastItem.

(** [Math.ceil(articles.length / itemsPerPage)] *)
Definition totalPages (articles : list Article) : Z :=
  ((Z.of_nat (length articles) + itemsPerPage - 1) / itemsPerPage)%Z.

(** An entry of the pager: a page button or the ['...'] gap. *)
Inductive PageItem :=
  | PageNumber (page : Z)
  | Ellipsis.

Definition getPageNumbers (currentPage totalPages : Z) : list PageItem :=
  let pages := [ PageNumber 1 ] in
  let start := Z.max 2 (currentPage - 1) in
  let end_ := Z.min (totalPages - 1) (currentPage + 1) in
  let pages := if (2 <? start)%Z then pages ++ [ Ellipsis ] else pages in
  let pages := pages ++ (PageNumber <$> seqZ start (end_ - start + 1)) in
  let pages :=
    if (end_ <? totalPages - 1)%Z then pages ++ [ Ellipsis ] else pages in
  if (1 <? totalPages)%Z then pages ++ [ PageNumber totalPages ] else pages.

(** ** Dashboard statistics ([src/components/dashboard/DashboardStats.tsx]) *)

Record Stats := {
  totalCount : nat;
  newsCount : nat;
  blogCount : nat;
  authorCount : nat;
  (** the time value of [latestDate], before it is formatted *)
  latestDate : option Z
}.

(** [Math.max(...timestamps)] of a non-empty array. *)
Definition js_max (timestamps : list Z) : Z :=
  match timestamps with
  | [] => 0
  | t :: ts => foldr Z.max t ts
  end.

(** The memoised computation, on an array of article objects; the set of
    authors holds the values of the [author] property that are truthy. *)
Definition dashboardStats (parseDate : string -> option Z)
    (articles : list Article) : Stats :=
  let validArticles := articles in
  let uniqueAuthors : gset (option string) :=
    foldl (fun authors article =>
             if str_truthy (art_author article)
             then {[ art_author article ]} ∪ authors else authors)
          ∅ validArticles in
  let validDates :=
    filter (fun timestamp => (0 < timestamp)%Z)
      ((fun article =>
          match art_publishedAt article with
          | Some p => default 0%Z (parseDate p)
          | None => 0%Z
          end)
       <$> filter (fun article => str_truthy (art_publishedAt article) = true)
             validArticles) in
  {| totalCount := length validArticles;
     newsCount :=
       length (filter (fun article => art_type article = Some "news") validArticles);
     blogCount :=
       length (filter (fun article => art_type article = Some "blog") validArticles);
     authorCount := size uniqueAuthors;
     latestDate :=
       if (0 <? length validArticles)%nat && (0 <? length validDates)%nat
       then Some (js_max validDates) else None |}.

(** ** Credentials sign-in ([src/lib/auth.ts]) *)

Record UserRecord := {
  user_id : string;
  user_name : string;
  user_email : string;
  user_password : string;
  user_role : string
}.

Definition users : list UserRecord :=
  [ {| user_id := "1"; user_name := "Admin User";
       user_email := "admin@example.com"; user_password := "admin123";
       user_role := "admin" |};
    {| user_id := "2"; user_name := "Regular User";
       user_email := "user@example.com"; user_password := "user123";
       user_role := "user" |} ].

(** What [authorize] hands on: the user without the password. *)
Record SessionUser := {
  su_id : string;
  su_name : string;
  su_email : string;
  su_role : string
}.

(** [authorize]: the credentials object may be missing, and so may either
    of its two properties. *)
Definition authorize (credentials : option (option string * option string))
    : option SessionUser :=
  match credentials with
  | Some (Some email, Some password) =>
      if negb (str_truthy (Some email)) || negb (str_truthy (Some password))
      then None
      else
        match list_find (fun user => user_email user = email) users with
        | Some (_, user) =>
            if negb (bool_decide (user_password user = password)) then None
            else Some {| su_id := user_id user; su_name := user_name user;
                         su_email := user_email user;
                         su_role := user_role user |}
        | None => None
        end
  | _ => None
  end.

(** ** Theme switch ([src/hooks/useDarkMode.ts]) *)

Inductive Theme := Light | Dark | System.

(** The updater of [toggleTheme]. *)
Definition toggleTheme (prevTheme : Theme) : Theme :=
  match prevTheme with
  | Light => Dark
  | Dark => System
  | System => Light
  end.

(** *** Further sample data *)

(** A provider article that carries nothing but a title. *)
Definition bare_raw_article : RawArticle :=
  {| raw_title := Some "Chips"; raw_description := None; raw_content := None;
     raw_author := None; raw_publishedAt := None; raw_url := None;
     raw_urlToImage := None; raw_source := None |}.

(** A provider that answers every request with that one article. *)
Definition one_article_provider (request : ProviderRequest)
    : HttpResult (option (option (list RawArticle))) :=
  HttpResponse (Some (Some [ bare_raw_article ])).

(** A world whose mediated endpoint is the route in front of that provider;
    the browser is on line and the cache write goes through. *)
Definition route_world : World :=
  served_by_route direct_only_world one_article_provider
    (fun _ => 4000%nat) (fun _ => "1970-01-01T00:00:04.000Z").

(** The same world with a cache store that refuses the write. *)
Definition failing_write_world : World :=
  {| NEWS_API_KEY := "";
     get_api_news := get_api_news route_world;
     get_provider := get_provider route_world;
     browser := browser route_world;
     save_after_route := Rejected "QuotaExceededError";
     save_after_direct := Rejected "QuotaExceededError";
     cache_read := Resolved [ mkArticle "1" "A" "news" ];
     random_days := random_days route_world;
     iso_days_ago := iso_days_ago route_world |}.

(** The articles the route makes of the provider's answer. *)
Definition route_world_articles : list Article :=
  [ route_article "mixed" 4000 "1970-01-01T00:00:04.000Z" 0
      bare_raw_article ].

(** Two articles that share an id. *)
Definition clashing_articles : list Article :=
  [ mkArticle "1" "A" "news"; mkArticle "1" "B" "blog" ].

(** A sequence of actions on the payout slice without loads from storage. *)
Definition local_actions : list (PayoutAction float) :=
  [ CalculatePayouts scenario_articles;
    UpdateRates {| newsRate := 10%float; blogRate := 20%float |};
    LoadRatesFulfilled None;
    LoadPayoutsFulfilled [];
    SaveRatesFulfilled fractional_rates ].

(** *** Integer-valued rates

    The rate table whose two rates are the integers [n] and [b], the amount
    it assigns to a type, and the exact total of the amounts of a
    collection. *)
Definition integer_rates (n b : Z) : PayoutRate float :=
  {| newsRate := number_of_Z n; blogRate := number_of_Z b |}.

Definition applicable_amount (n b : Z) (ty : option string) : Z :=
  if decide (ty = Some "news") then n else b.

Definition total_amount (n b : Z) (A : list Article) : Z :=
  foldr Z.add 0%Z ((fun a => applicable_amount n b (art_type a)) <$> A).

(** A mantissa followed by [n] zero bits. *)
Definition shift_left (m : positive) (n : nat) : positive := Nat.iter n xO m.

(** Integer rates beyond the range in which doubles add exactly. *)
Definition large_state : PayoutState float :=
  {| rates := integer_rates (2 ^ 53) 1;
     authorPayouts := []; loading := false; error := None |}.

Definition large_articles : list Article :=
  [ mkArticle "1" "A" "blog"; mkArticle "2" "B" "news";
    mkArticle "3" "A" "blog" ].

(** * Properties *)

(** ** Insertion-ordered maps *)

Section JsMapFacts.
Context {K : Type} `{EqDecision K} {V : Type}.
Implicit Types (m : JsMap.t K V) (ks : list K) (f : K -> V).

Lemma has_tabulate k f ks :
  JsMap.has k ((fun a => (a, f a)) <$> ks) = bool_decide (k ∈ ks).
Proof.
  induction ks as [|k' ks IH].
  - symmetry. apply bool_decide_eq_false. apply not_elem_of_nil.
  - rewrite fmap_cons. cbn [JsMap.has].
    destruct (decide (k = k')) as [->|Hne].
    + symmetry. apply bool_decide_eq_true. apply elem_of_cons. by left.
    + rewrite IH. apply bool_decide_ext. rewrite elem_of_cons. tauto.
Qed.

Lemma get_tabulate k f ks :
  k ∈ ks -> JsMap.get k ((fun a => (a, f a)) <$> ks) = Some (f k).
Proof.
  induction ks as [|k' ks IH]; intros Hin.
  - by apply elem_of_nil in Hin.
  - rewrite fmap_cons. cbn [JsMap.get].
    destruct (decide (k = k')) as [->|Hne]; [done|].
    apply IH. apply elem_of_cons in Hin. tauto.
Qed.

Lemma set_tabulate_fresh k v f ks :
  k ∉ ks ->
  JsMap.set k v ((fun a => (a, f a)) <$> ks)
  = ((fun a => (a, f a)) <$> ks) ++ [(k, v)].
Proof.
  induction ks as [|k' ks IH]; intros Hnin; [done|].
  apply not_elem_of_cons in Hnin as [Hne Hnin].
  rewrite fmap_cons. cbn [JsMap.set].
  destruct (decide (k = k')); [done|]. by rewrite IH.
Qed.

Lemma set_tabulate_present k v f ks :
  NoDup ks -> k ∈ ks ->
  JsMap.set k v ((fun a => (a, f a)) <$> ks)
  = (fun a => (a, if decide (a = k) then v else f a)) <$> ks.
Proof.
  induction 1 as [|k' ks Hnin Hnd IH]; intros Hin.
  - by apply elem_of_nil in Hin.
  - rewrite !fmap_cons. cbn [JsMap.set].
    destruct (decide (k = k')) as [->|Hne].
    + rewrite decide_True by done. f_equal.
      apply list_fmap_ext. intros i a Ha.
      destruct (decide (a = k')) as [->|]; [|done].
      exfalso. apply Hnin. by eapply list_elem_of_lookup_2.
    + rewrite decide_False by done. f_equal.
      apply IH. apply elem_of_cons in Hin. tauto.
Qed.

Lemma values_tabulate f ks :
  JsMap.values ((fun a => (a, f a)) <$> ks) = f <$> ks.
Proof. unfold JsMap.values. by rewrite <- list_fmap_compose. Qed.

Lemma keys_tabulate f ks :
  JsMap.keys ((fun a => (a, f a)) <$> ks) = ks.
Proof.
  unfold JsMap.keys. rewrite <- list_fmap_compose. apply list_fmap_id.
Qed.
End JsMapFacts.

(** ** First-occurrence order *)

Section FirstOccurrence.
Context {X : Type} `{EqDecision X}.
Implicit Types (l seen : list X).

Lemma elem_of_first_seen x seen l :
  x ∈ first_seen seen l <-> x ∈ l /\ x ∉ seen.
Proof.
  revert seen. induction l as [|y l IH]; intros seen; simpl.
  - split; [intros Hx; by apply elem_of_nil in Hx|].
    intros [Hx _]. by apply elem_of_nil in Hx.
  - destruct (decide (y ∈ seen)) as [Hy|Hy].
    + rewrite IH, elem_of_cons. naive_solver.
    + rewrite elem_of_cons, IH, !elem_of_cons. split.
      * intros [->|[Hx Hn]]; [naive_solver|].
        split; [by right|]. naive_solver.
      * intros [[->|Hx] Hn]; [by left|].
        destruct (decide (x = y)) as [->|Hne]; [by left|].
        right. split; [done|]. naive_solver.
Qed.

Lemma NoDup_first_seen seen l : NoDup (first_seen seen l).
Proof.
  revert seen. induction l as [|y l IH]; intros seen; simpl.
  - constructor.
  - destruct (decide (y ∈ seen)); [apply IH|].
    constructor; [|apply IH].
    rewrite elem_of_first_seen, elem_of_cons. naive_solver.
Qed.

Lemma first_seen_snoc seen l x :
  first_seen seen (l ++ [x])
  = if decide (x ∈ seen ∨ x ∈ l) then first_seen seen l
    else first_seen seen l ++ [x].
Proof.
  revert seen. induction l as [|y l IH]; intros seen; simpl.
  - destruct (decide (x ∈ seen)) as [Hx|Hx].
    + rewrite decide_True; [done|by left].
    + rewrite decide_False; [done|].
      intros [?|Hn]; [done|by apply elem_of_nil in Hn].
  - destruct (decide (y ∈ seen)) as [Hy|Hy]; rewrite IH.
    + apply decide_ext. rewrite elem_of_cons. naive_solver.
    + destruct (decide (x ∈ y :: seen ∨ x ∈ l)) as [Hc|Hc].
      * rewrite decide_True; [done|].
        rewrite !elem_of_cons in *. naive_solver.
      * rewrite decide_False; [done|].
        rewrite !elem_of_cons in *. naive_solver.
Qed.

Lemma elem_of_first_occurrence_order x l :
  x ∈ first_occurrence_order l <-> x ∈ l.
Proof.
  unfold first_occurrence_order. rewrite elem_of_first_seen.
  split; [naive_solver|]. intros Hx. split; [done|apply not_elem_of_nil].
Qed.

Lemma NoDup_first_occurrence_order l : NoDup (first_occurrence_order l).
Proof. apply NoDup_first_seen. Qed.

Lemma first_occurrence_order_snoc l x :
  first_occurrence_order (l ++ [x])
  = if decide (x ∈ l) then first_occurrence_order l
    else first_occurrence_order l ++ [x].
Proof.
  unfold first_occurrence_order. rewrite first_seen_snoc.
  apply decide_ext. split; [|by right].
  intros [Hx|Hx]; [by apply elem_of_nil in Hx|done].
Qed.
Lemma first_index_cons_ne x y l :
  x <> y -> first_index x (y :: l) = S (first_index x l).
Proof. intros Hne. cbn. by rewrite decide_False. Qed.

(** Earlier in the output means first seen earlier in the input. *)
Lemma first_seen_sorted seen l i j x y :
  first_seen seen l !! i = Some x -> first_seen seen l !! j = Some y ->
  (i < j)%nat -> (first_index x l < first_index y l)%nat.
Proof.
  revert seen i j. induction l as [|z l IH]; intros seen i j Hx Hy Hij.
  - cbn [first_seen] in Hx. by rewrite lookup_nil in Hx.
  - cbn [first_seen] in Hx, Hy.
    destruct (decide (z ∈ seen)) as [Hz|Hz].
    + assert (x <> z /\ y <> z) as [Hxz Hyz].
      { split; intros ->.
        - apply list_elem_of_lookup_2, elem_of_first_seen in Hx. tauto.
        - apply list_elem_of_lookup_2, elem_of_first_seen in Hy. tauto. }
      rewrite !first_index_cons_ne by done.
      enough (first_index x l < first_index y l)%nat by lia.
      by eapply IH.
    + destruct j as [|j]; [inversion Hij|]. cbn in Hy.
      assert (Hyz : y <> z).
      { intros ->. apply list_elem_of_lookup_2, elem_of_first_seen in Hy.
        destruct Hy as [_ Hy]. apply Hy, elem_of_cons. by left. }
      rewrite (first_index_cons_ne y) by done.
      destruct i as [|i].
      * cbn in Hx. injection Hx as <-. cbn. rewrite decide_True by done.
        lia.
      * cbn in Hx.
        assert (Hxz : x <> z).
        { intros ->. apply list_elem_of_lookup_2, elem_of_first_seen in Hx.
          destruct Hx as [_ Hx]. apply Hx, elem_of_cons. by left. }
        rewrite first_index_cons_ne by done.
        enough (first_index x l < first_index y l)%nat by lia.
        eapply IH; [exact Hx|exact Hy|lia].
Qed.

Lemma first_occurrence_order_sorted l i j x y :
  first_occurrence_order l !! i = Some x ->
  first_occurrence_order l !! j = Some y ->
  (i < j)%nat -> (first_index x l < first_index y l)%nat.
Proof. apply first_seen_sorted. Qed.
End FirstOccurrence.

(** ** Payout engine: what [calculatePayouts] computes *)

Section PayoutFacts.
Context {num : Type} `{JsNumber num}.
Implicit Types (R : PayoutRate num) (A : list Article) (a : Article)
  (p : AuthorPayout num) (st : PayoutState num).

Lemma is_news_applicableRate R ty :
  (if is_news ty then newsRate R else blogRate R) = applicableRate R ty.
Proof.
  unfold is_news, applicableRate.
  case_bool_decide; [by rewrite decide_True|by rewrite decide_False].
Qed.

Lemma js_sum_snoc (xs : list num) x :
  js_sum (xs ++ [x]) = num_add (js_sum xs) x.
Proof. unfold js_sum. by rewrite fold_left_app. Qed.

Lemma sum_item_rates_snoc (items : list (PayoutItem num)) it :
  sum_item_rates (items ++ [it]) = num_add (sum_item_rates items) (li_rate it).
Proof. unfold sum_item_rates. rewrite fmap_app. apply js_sum_snoc. Qed.

Lemma articles_of_snoc author A a :
  articles_of author (A ++ [a])
  = if decide (art_author a = author) then articles_of author A ++ [a]
    else articles_of author A.
Proof.
  unfold articles_of. rewrite filter_app, filter_cons, filter_nil.
  destruct (decide (art_author a = author)); [done|].
  by rewrite app_nil_r.
Qed.

Lemma articles_of_absent author A :
  author ∉ art_author <$> A -> articles_of author A = [].
Proof.
  intros Hn. unfold articles_of. induction A as [|a A IH]; [done|].
  rewrite fmap_cons in Hn. apply not_elem_of_cons in Hn as [Hne Hn].
  rewrite filter_cons, decide_False by congruence. by apply IH.
Qed.

Lemma forEach_step R A a :
  calculatePayouts_forEach R (authors_after R A) a
  = authors_after R (A ++ [a]).
Proof.
  unfold calculatePayouts_forEach, authors_after.
  rewrite is_news_applicableRate, has_tabulate.
  rewrite fmap_app. change (art_author <$> [a]) with [art_author a].
  rewrite first_occurrence_order_snoc.
  set (k := art_author a). set (ks := first_occurrence_order (art_author <$> A)).
  assert (Hks : forall x, x ∈ ks <-> x ∈ art_author <$> A)
    by (intros x; apply elem_of_first_occurrence_order).
  assert (Hnd : NoDup ks) by apply NoDup_first_occurrence_order.
  destruct (decide (k ∈ art_author <$> A)) as [Hin|Hnin].
  - rewrite bool_decide_eq_true_2 by (by apply Hks). cbn [negb].
    rewrite get_tabulate by (by apply Hks).
    rewrite set_tabulate_present by (done || by apply Hks).
    apply list_fmap_ext. intros i author Hau. f_equal.
    unfold aggregate_of. rewrite !articles_of_snoc. fold k.
    destruct (decide (author = k)) as [->|Hne].
    + rewrite decide_True by done. cbn [ap_author ap_articleCount
        ap_totalPayout ap_articles].
      rewrite fmap_app, length_app. cbn [fmap list_fmap length].
      by rewrite sum_item_rates_snoc.
    + rewrite decide_False by done. done.
  - rewrite bool_decide_eq_false_2 by (by rewrite Hks). cbn [negb].
    rewrite set_tabulate_fresh by (by rewrite Hks).
    set (fresh := {| ap_author := k; ap_articleCount := 0;
                     ap_totalPayout := num_zero; ap_articles := [] |}).
    assert (Hnd' : NoDup (ks ++ [k])).
    { apply NoDup_app. split; [done|]. split; [|apply NoDup_singleton].
      intros x Hx Hx'. apply list_elem_of_singleton in Hx' as ->.
      by apply Hnin, Hks. }
    assert (Hin' : k ∈ ks ++ [k])
      by (apply elem_of_app; right; by apply list_elem_of_singleton).
    assert (Htab :
      ((fun author => (author, aggregate_of R A author)) <$> ks) ++ [(k, fresh)]
      = (fun author => (author, if decide (author = k) then fresh
                                else aggregate_of R A author)) <$> (ks ++ [k])).
    { rewrite fmap_app. cbn [fmap list_fmap]. rewrite decide_True by done.
      f_equal. apply list_fmap_ext. intros i author Hau.
      rewrite decide_False; [done|]. intros ->.
      apply Hnin, Hks. by eapply list_elem_of_lookup_2. }
    rewrite Htab, get_tabulate by done. rewrite decide_True by done.
    rewrite set_tabulate_present by done.
    apply list_fmap_ext. intros i author Hau. f_equal.
    unfold aggregate_of. rewrite !articles_of_snoc. fold k.
    destruct (decide (author = k)) as [->|Hne].
    + rewrite decide_True by done.
      rewrite articles_of_absent by done. done.
    + by rewrite decide_False by congruence.
Qed.

Lemma forEach_fold R A :
  fold_left (calculatePayouts_forEach R) A JsMap.empty = authors_after R A.
Proof.
  induction A as [|a A IH] using rev_ind; [done|].
  by rewrite fold_left_app, IH; cbn [fold_left]; rewrite forEach_step.
Qed.

(** The aggregates computed by the reducer, in closed form. *)
Lemma calculatePayouts_aggregates st A :
  authorPayouts (calculatePayouts st A)
  = aggregate_of (rates st) A
    <$> first_occurrence_order (art_author <$> A).
Proof.
  unfold calculatePayouts. cbn [authorPayouts].
  rewrite forEach_fold. apply values_tabulate.
Qed.
End PayoutFacts.

(** ** Payout engine: rescaling *)

Section RescaleFacts.
Context {num : Type} `{JsNumber num}.
Implicit Types (R : PayoutRate num) (items : list (PayoutItem num)).

Lemma recalculate_articles_from R items total out :
  fold_left
    (fun (acc : num * list (PayoutItem num)) article =>
       let rate :=
         if is_news (li_type article) then newsRate R else blogRate R in
       (num_add acc.1 rate,
        acc.2 ++
        [ {| li_id := li_id article; li_title := li_title article;
             li_type := li_type article;
             li_publishedAt := li_publishedAt article;
             li_rate := rate |} ]))
    items (total, out)
  = (fold_left num_add (li_rate <$> (rerate R <$> items)) total,
     out ++ (rerate R <$> items)).
Proof.
  revert total out. induction items as [|it items IH]; intros total out.
  - cbn. by rewrite app_nil_r.
  - cbn [fold_left]. cbv zeta. cbn [fst snd]. rewrite IH.
    rewrite !fmap_cons. cbn [fold_left].
    rewrite is_news_applicableRate. unfold rerate at 3. cbn [li_rate].
    f_equal. rewrite <- app_assoc. done.
Qed.

Lemma recalculate_articles_rerate R items :
  recalculate_articles R items
  = (sum_item_rates (rerate R <$> items), rerate R <$> items).
Proof.
  unfold recalculate_articles. by rewrite recalculate_articles_from.
Qed.

Lemma rerate_line_item R1 R2 a :
  rerate R2 (line_item R1 a) = line_item R2 a.
Proof. done. Qed.

Lemma item_frame_rerate R it : item_frame (rerate R it) = item_frame it.
Proof. done. Qed.
End RescaleFacts.

(** ** Payout engine: the stated properties *)

Section PayoutProperties.
Context {num : Type} `{JsNumber num}.
Implicit Types (R : PayoutRate num) (A : list Article)
  (P : list (AuthorPayout num)) (st : PayoutState num).

(** C2.  Every aggregate produced by [calculatePayouts] counts its own
    line items, has as many line items as the input has articles by its
    author, and its total is the sum of the rates of its line items. *)
Theorem count_invariant st A :
  Forall
    (fun p =>
       ap_articleCount p = length (ap_articles p)
       /\ length (ap_articles p)
          = length (filter (fun a => art_author a = ap_author p) A)
       /\ ap_totalPayout p = sum_item_rates (ap_articles p))
    (authorPayouts (calculatePayouts st A)).
Proof.
  rewrite calculatePayouts_aggregates. apply Forall_fmap, Forall_forall.
  intros author _. unfold aggregate_of, articles_of.
  cbn [compose ap_articleCount ap_articles ap_author ap_totalPayout].
  by rewrite length_fmap.
Qed.

(** C3.  Rescaling the aggregates computed under one rate table to a
    second rate table gives exactly the aggregates computed from the
    articles under the second table. *)
Theorem rescale_equivalence st1 st2 A :
  recalculatePayouts (authorPayouts (calculatePayouts st1 A)) (rates st2)
  = authorPayouts (calculatePayouts st2 A).
Proof.
  rewrite !calculatePayouts_aggregates. unfold recalculatePayouts.
  rewrite <- list_fmap_compose. apply list_fmap_ext.
  intros i author _. cbn [compose]. cbv zeta.
  rewrite recalculate_articles_rerate. cbn [fst snd].
  unfold aggregate_of. cbn [ap_author ap_articleCount ap_articles].
  rewrite <- list_fmap_compose.
  assert (Hre : rerate (rates st2) ∘ line_item (rates st1)
                = line_item (rates st2)) by done.
  by rewrite Hre.
Qed.

(** C4.  The authors of the output are the distinct authors of the input
    in first-occurrence order, whatever the rate table. *)
Theorem author_order st A :
  ap_author <$> authorPayouts (calculatePayouts st A)
  = first_occurrence_order (art_author <$> A)
  /\ forall st', ap_author <$> authorPayouts (calculatePayouts st' A)
                 = ap_author <$> authorPayouts (calculatePayouts st A).
Proof.
  assert (Hord : forall s, ap_author <$> authorPayouts (calculatePayouts s A)
                           = first_occurrence_order (art_author <$> A)).
  { intros s. rewrite calculatePayouts_aggregates, <- list_fmap_compose.
    apply list_fmap_id. }
  split; [apply Hord|]. intros st'. by rewrite !Hord.
Qed.

(** C5.  [recalculatePayouts] changes nothing but rates and totals: the
    authors, the counts, the line items and their order, and each line
    item's id, title, type and publication date stay as they were. *)
Theorem recalculate_frame P R :
  payout_frame <$> recalculatePayouts P R = payout_frame <$> P.
Proof.
  unfold recalculatePayouts. rewrite <- list_fmap_compose.
  apply list_fmap_ext. intros i p _. cbn [compose]. cbv zeta.
  rewrite recalculate_articles_rerate. unfold payout_frame.
  cbn [fst snd ap_author ap_articleCount ap_articles].
  rewrite <- list_fmap_compose. done.
Qed.

(** C10.  Rate resolution defaults to the blog rate, in both functions
    and on every input.  [calculatePayouts] gives every article whose type
    is anything but ['news'] a line item at the blog rate under its author,
    and [recalculatePayouts] re-rates every stored line item whose type is
    anything but ['news'] to the blog rate, at its place; conversely no
    line item of either output whose type is not ['news'] carries another
    rate.  Both functions are total: no type makes them fail. *)
Theorem rate_resolution_defaults_to_blog st A P R :
  (forall a, a ∈ A -> art_type a <> Some "news" ->
     exists p, p ∈ authorPayouts (calculatePayouts st A)
       /\ ap_author p = art_author a
       /\ {| li_id := art_id a; li_title := art_title a;
             li_type := art_type a; li_publishedAt := art_publishedAt a;
             li_rate := blogRate (rates st) |}
          ∈ ap_articles p)
  /\ (forall p it,
        p ∈ authorPayouts (calculatePayouts st A) -> it ∈ ap_articles p ->
        li_type it <> Some "news" -> li_rate it = blogRate (rates st))
  /\ (forall i j p it,
        P !! i = Some p -> ap_articles p !! j = Some it ->
        li_type it <> Some "news" ->
        exists p', recalculatePayouts P R !! i = Some p'
          /\ ap_author p' = ap_author p
          /\ ap_articles p' !! j
             = Some {| li_id := li_id it; li_title := li_title it;
                       li_type := li_type it;
                       li_publishedAt := li_publishedAt it;
                       li_rate := blogRate R |})
  /\ (forall p it,
        p ∈ recalculatePayouts P R -> it ∈ ap_articles p ->
        li_type it <> Some "news" -> li_rate it = blogRate R).
Proof.
  assert (Hblog : forall R' x, x <> Some "news" ->
            applicableRate R' x = blogRate R').
  { intros R' x Hx. unfold applicableRate. by rewrite decide_False. }
  repeat split.
  - intros a Hin Hty. exists (aggregate_of (rates st) A (art_author a)).
    rewrite calculatePayouts_aggregates. split; [|split; [done|]].
    + apply list_elem_of_fmap. exists (art_author a). split; [done|].
      apply elem_of_first_occurrence_order, list_elem_of_fmap. by exists a.
    + cbn [aggregate_of ap_articles]. apply list_elem_of_fmap. exists a.
      split; [unfold line_item; by rewrite Hblog|].
      unfold articles_of. by apply list_elem_of_filter.
  - intros p it Hp Hit Hty. rewrite calculatePayouts_aggregates in Hp.
    apply list_elem_of_fmap in Hp as (author & -> & _).
    cbn [aggregate_of ap_articles] in Hit.
    apply list_elem_of_fmap in Hit as (a & -> & _).
    cbn [line_item li_rate li_type] in *. by apply Hblog.
  - intros i j p it Hp Hit Hty. unfold recalculatePayouts.
    rewrite list_lookup_fmap, Hp. cbn [fmap option_fmap option_map].
    eexists. split; [done|]. split; [done|].
    cbv zeta. rewrite recalculate_articles_rerate. cbn [snd ap_articles].
    rewrite list_lookup_fmap, Hit. cbn [fmap option_fmap option_map].
    unfold rerate. by rewrite Hblog.
  - intros p it Hp Hit Hty. unfold recalculatePayouts in Hp.
    apply list_elem_of_fmap in Hp as (p0 & -> & _).
    cbv zeta in Hit. rewrite recalculate_articles_rerate in Hit.
    cbn [snd ap_articles] in Hit.
    apply list_elem_of_fmap in Hit as (it0 & -> & _).
    cbn [rerate li_rate li_type] in *. by apply Hblog.
Qed.
End PayoutProperties.

(** ** Payout engine: the articles by author *)

Lemma concat_bump {X Y : Type} `{EqDecision X} (g : X -> list Y) (k : X)
    (y : Y) (ks : list X) :
  NoDup ks -> k ∈ ks ->
  concat ((fun x => if decide (k = x) then g x ++ [y] else g x) <$> ks)
  ≡ₚ concat (g <$> ks) ++ [y].
Proof.
  induction 1 as [|k' ks Hnin Hnd IH]; intros Hin.
  - by apply elem_of_nil in Hin.
  - rewrite !fmap_cons. cbn [concat].
    destruct (decide (k = k')) as [->|Hne].
    + assert (Hsame :
        (fun x => if decide (k' = x) then g x ++ [y] else g x) <$> ks
        = g <$> ks).
      { apply list_fmap_ext. intros i x Hx.
        rewrite decide_False; [done|]. intros <-.
        apply Hnin. by eapply list_elem_of_lookup_2. }
      rewrite Hsame, <- !app_assoc.
      apply Permutation_app_head, Permutation_app_comm.
    + rewrite IH, app_assoc; [done|].
      apply elem_of_cons in Hin. destruct Hin; [congruence|done].
Qed.

Lemma articles_partition A :
  concat ((fun author => articles_of author A)
          <$> first_occurrence_order (art_author <$> A))
  ≡ₚ A.
Proof.
  induction A as [|a A IH] using rev_ind; [done|].
  rewrite fmap_app. change (art_author <$> [a]) with [art_author a].
  rewrite first_occurrence_order_snoc.
  set (k := art_author a).
  set (ks := first_occurrence_order (art_author <$> A)) in *.
  rewrite (list_fmap_ext _
             (fun author => if decide (k = author)
                            then articles_of author A ++ [a]
                            else articles_of author A) _
             (fun _ author _ => articles_of_snoc author A a)).
  destruct (decide (k ∈ art_author <$> A)) as [Hin|Hnin].
  - etrans.
    + apply (concat_bump (fun author => articles_of author A) k a ks);
        [apply NoDup_first_occurrence_order|].
      by apply elem_of_first_occurrence_order.
    + by rewrite IH.
  - rewrite fmap_app, fmap_cons, fmap_nil, concat_app. cbn [concat].
    rewrite decide_True, app_nil_r, articles_of_absent by done.
    cbn [app]. apply Permutation_app_tail. etrans; [|exact IH].
    apply reflexive_eq. f_equal.
    apply list_fmap_ext. intros i author Hau.
    rewrite decide_False; [done|]. intros <-. apply Hnin.
    apply elem_of_first_occurrence_order. by eapply list_elem_of_lookup_2.
Qed.

(** ** Doubles: non-negative integers add exactly up to [2^53]

    The kernel's [PrimFloat.add] is specified by [SFadd] on the binary64
    format ([prec = 53], [emax = 1024]).  A positive integer up to [2^53] is
    a mantissa of at most 53 bits followed by zeros, rounding such a
    mantissa is exact, and so is adding two of them when the sum is again
    within [2^53]. *)

Section Doubles.
Import SpecFloat FloatOps FloatAxioms.
#[local] Open Scope Z_scope.

Lemma shift_left_iter (m d : positive) : Pos.iter xO m d = shift_left m (Pos.to_nat d).
Proof. apply Pos2Nat.inj_iter. Qed.

Lemma shift_left_add (m : positive) (a b : nat) : shift_left (shift_left m a) b = shift_left m (a + b)%nat.
Proof. unfold shift_left. rewrite Nat.add_comm. symmetry. apply Nat.iter_add. Qed.

Lemma shift_left_value (m : positive) (n : nat) : Zpos (shift_left m n) = Zpos m * 2 ^ Z.of_nat n.
Proof.
  induction n as [|n IH].
  - cbn. lia.
  - unfold shift_left in *. rewrite Nat.iter_succ, Pos2Z.inj_xO, IH.
    rewrite Nat2Z.inj_succ, Z.pow_succ_r by lia. lia.
Qed.

Lemma digits_shift_left (m : positive) (n : nat) :
  Zpos (digits2_pos (shift_left m n)) = Zpos (digits2_pos m) + Z.of_nat n.
Proof.
  induction n as [|n IH].
  - cbn. lia.
  - unfold shift_left in *. rewrite Nat.iter_succ. cbn [digits2_pos].
    rewrite Pos2Z.inj_succ, IH. lia.
Qed.

Lemma iter_pos_nat {X : Type} (f : X -> X) (p : positive) (x : X) :
  iter_pos f p x = Nat.iter (Pos.to_nat p) f x.
Proof.
  revert x. induction p as [p IH|p IH|]; intros x; cbn [iter_pos].
  - rewrite !IH, Pos2Nat.inj_xI, <- Nat.iter_add.
    replace (S (2 * Pos.to_nat p)) with (Pos.to_nat p + Pos.to_nat p + 1)%nat by lia.
    rewrite <- (Nat.iter_add _ 1). done.
  - rewrite !IH, Pos2Nat.inj_xO, <- Nat.iter_add.
    by replace (2 * Pos.to_nat p)%nat with (Pos.to_nat p + Pos.to_nat p)%nat by lia.
  - done.
Qed.

Lemma shr_shift_left (m : positive) (n : nat) :
  Nat.iter n shr_1 {| shr_m := Zpos (shift_left m n); shr_r := false; shr_s := false |}
  = {| shr_m := Zpos m; shr_r := false; shr_s := false |}.
Proof.
  induction n as [|n IH]; [done|].
  rewrite Nat.iter_succ_r. unfold shift_left. rewrite Nat.iter_succ. cbn [shr_1 orb].
  exact IH.
Qed.

(** Rounding a mantissa that fits the precision once its trailing zeros are
    dropped is exact, and gives the normal form of the value. *)
Lemma binary_round_shift_left (m : positive) (j : nat) (e : Z) :
  Zpos (digits2_pos m) <= 53 ->
  -1074 <= e + Z.of_nat j + Zpos (digits2_pos m) - 53 <= 971 ->
  binary_round prec emax false (shift_left m j) e
  = S754_finite false (shift_left m (Z.to_nat (53 - Zpos (digits2_pos m))))
      (e + Z.of_nat j + Zpos (digits2_pos m) - 53).
Proof.
  intros Hd Hrange. set (d := Zpos (digits2_pos m)) in *.
  unfold binary_round, shl_align. rewrite digits_shift_left. fold d.
  unfold fexp, emin, prec, emax.
  replace (Z.max (d + Z.of_nat j + e - 53) (3 - 1024 - 53))
    with (d + Z.of_nat j + e - 53) by lia.
  destruct (d + Z.of_nat j + e - 53 - e) as [|t|t] eqn:Ht.
  - (* exactly 53 digits *)
    unfold binary_round_aux, shr_fexp. cbn [Zdigits2]. rewrite digits_shift_left. fold d.
    unfold fexp, emin.
    replace (Z.max (d + Z.of_nat j + e - 53) (3 - 1024 - 53) - e) with 0 by lia.
    cbn [shr shr_record_of_loc shr_m loc_of_shr_record round_nearest_even Zdigits2].
    rewrite digits_shift_left. fold d.
    replace (Z.max (d + Z.of_nat j + e - 53) (3 - 1024 - 53) - e) with 0 by lia.
    cbn [shr shr_record_of_loc shr_m].
    replace (e <=? 1024 - 53) with true by lia.
    f_equal; [|lia]. f_equal. lia.
  - (* more than 53 digits: shift right *)
    unfold binary_round_aux, shr_fexp. cbn [Zdigits2]. rewrite digits_shift_left. fold d.
    unfold fexp, emin.
    replace (Z.max (d + Z.of_nat j + e - 53) (3 - 1024 - 53) - e) with (Zpos t) by lia.
    cbn [shr shr_record_of_loc]. rewrite iter_pos_nat.
    assert (Hshift :
      Nat.iter (Pos.to_nat t) shr_1
        {| shr_m := Zpos (shift_left m j); shr_r := false; shr_s := false |}
      = {| shr_m := Zpos (shift_left m (Z.to_nat (53 - d)));
           shr_r := false; shr_s := false |}).
    { rewrite <- (shr_shift_left (shift_left m (Z.to_nat (53 - d))) (Pos.to_nat t)).
      rewrite shift_left_add. f_equal. f_equal. f_equal. f_equal. lia. }
    rewrite Hshift.
    cbn [shr_m loc_of_shr_record round_nearest_even Zdigits2].
    rewrite digits_shift_left. fold d.
    replace (Z.max (d + Z.of_nat (Z.to_nat (53 - d)) + (e + Zpos t) - 53)
               (3 - 1024 - 53) - (e + Zpos t)) with 0 by lia.
    cbn [shr shr_record_of_loc shr_m].
    replace (e + Zpos t <=? 1024 - 53) with true by lia.
    f_equal. lia.
  - (* fewer than 53 digits: shift left *)
    rewrite shift_left_iter, shift_left_add.
    unfold binary_round_aux, shr_fexp. cbn [Zdigits2]. rewrite digits_shift_left. fold d.
    unfold fexp, emin.
    replace (Z.max (d + Z.of_nat (j + Pos.to_nat t) + (d + Z.of_nat j + e - 53) - 53)
               (3 - 1024 - 53) - (d + Z.of_nat j + e - 53)) with 0 by lia.
    cbn [shr shr_record_of_loc shr_m loc_of_shr_record round_nearest_even Zdigits2].
    rewrite digits_shift_left. fold d.
    replace (Z.max (d + Z.of_nat (j + Pos.to_nat t) + (d + Z.of_nat j + e - 53) - 53)
               (3 - 1024 - 53) - (d + Z.of_nat j + e - 53)) with 0 by lia.
    cbn [shr shr_record_of_loc shr_m].
    replace (d + Z.of_nat j + e - 53 <=? 1024 - 53) with true by lia.
    f_equal; [|lia]. f_equal. lia.
Qed.

Lemma digits_bounds (p : positive) :
  2 ^ (Zpos (digits2_pos p) - 1) <= Zpos p < 2 ^ Zpos (digits2_pos p).
Proof.
  induction p as [p IH|p IH|]; cbn [digits2_pos].
  - rewrite Pos2Z.inj_succ.
    replace (Z.succ (Zpos (digits2_pos p)) - 1)
      with (Z.succ (Zpos (digits2_pos p) - 1)) by lia.
    rewrite !Z.pow_succ_r by lia. lia.
  - rewrite Pos2Z.inj_succ.
    replace (Z.succ (Zpos (digits2_pos p)) - 1)
      with (Z.succ (Zpos (digits2_pos p) - 1)) by lia.
    rewrite !Z.pow_succ_r by lia. lia.
  - cbn. lia.
Qed.

(** A positive integer up to [2^53] is a mantissa of at most 53 bits
    followed by zeros. *)
Lemma fits_decompose (p : positive) :
  Zpos p <= 2 ^ 53 ->
  exists (m : positive) (j : nat),
    p = shift_left m j /\ Zpos (digits2_pos m) <= 53 /\ (j <= 53)%nat.
Proof.
  intros Hp. destruct (Z.eq_dec (Zpos p) (2 ^ 53)) as [Heq|Hne].
  - exists 1%positive, 53%nat. split; [|split; [cbn; lia|lia]].
    apply Pos2Z.inj. rewrite Heq. reflexivity.
  - exists p, 0%nat. split; [done|]. split; [|lia].
    pose proof (digits_bounds p) as [Hlo _].
    destruct (Z_le_gt_dec (Zpos (digits2_pos p)) 53) as [|Hgt]; [done|].
    exfalso. assert (2 ^ 53 <= 2 ^ (Zpos (digits2_pos p) - 1))
      by (apply Z.pow_le_mono_r; lia). lia.
Qed.

Lemma Prim2SF_number (m : positive) (j : nat) :
  Zpos (digits2_pos m) <= 53 -> (j <= 53)%nat -> Zpos (shift_left m j) <= 2 ^ 53 ->
  Prim2SF (number_of_Z (Zpos (shift_left m j)))
  = S754_finite false (shift_left m (Z.to_nat (53 - Zpos (digits2_pos m))))
      (Z.of_nat j + Zpos (digits2_pos m) - 53).
Proof.
  intros Hd Hj Hfit. unfold number_of_Z.
  rewrite of_uint63_spec, Uint63.of_Z_spec, Z.mod_small.
  - cbn [binary_normalize]. rewrite binary_round_shift_left; [done|done|lia].
  - split; [lia|]. change Uint63.wB with (2 ^ 63). 
    assert (2 ^ 53 < 2 ^ 63) by (apply Z.pow_lt_mono_r; lia). lia.
Qed.

Lemma shl_align_down (m : positive) (e ez : Z) :
  ez <= e -> fst (shl_align m e ez) = shift_left m (Z.to_nat (e - ez)).
Proof.
  intros Hle. unfold shl_align. destruct (ez - e) as [|d|d] eqn:Hd; cbn [fst].
  - by replace (e - ez) with 0 by lia.
  - lia.
  - rewrite shift_left_iter. f_equal. lia.
Qed.

Lemma shift_left_plus (a b : positive) (k : nat) :
  (shift_left a k + shift_left b k)%positive = shift_left (a + b) k.
Proof.
  apply Pos2Z.inj. rewrite Pos2Z.inj_add, !shift_left_value, Pos2Z.inj_add. lia.
Qed.

(** Adding two non-negative integers whose sum is at most [2^53] is exact
    on doubles. *)
Lemma number_add (x y : Z) :
  0 <= x -> 0 <= y -> x + y <= 2 ^ 53 ->
  (number_of_Z x + number_of_Z y)%float = number_of_Z (x + y).
Proof.
  intros Hx Hy Hsum. apply Prim2SF_inj. rewrite add_spec.
  assert (Hfinite : forall p, Zpos p <= 2 ^ 53 ->
            exists mp ep, Prim2SF (number_of_Z (Zpos p)) = S754_finite false mp ep).
  { intros p Hp. destruct (fits_decompose p Hp) as (m & j & -> & Hd & Hj).
    rewrite Prim2SF_number by done. by eexists _, _. }
  destruct x as [|a|a]; [|destruct y as [|b|b]|]; try lia.
  - (* 0 + y *)
    rewrite Z.add_0_l. change (Prim2SF (number_of_Z 0)) with (S754_zero false).
    destruct y as [|b|b]; [done| |lia].
    destruct (Hfinite b) as (mp & ep & ->); [lia|done].
  - (* x + 0 *)
    rewrite Z.add_0_r. change (Prim2SF (number_of_Z 0)) with (S754_zero false).
    destruct (Hfinite a) as (mp & ep & ->); [lia|done].
  - (* both positive *)
    assert (Ha : Zpos (digits2_pos a) <= 53).
    { pose proof (digits_bounds a) as [Hlo _].
      destruct (Z_le_gt_dec (Zpos (digits2_pos a)) 53) as [|Hgt]; [done|].
      exfalso. assert (2 ^ 53 <= 2 ^ (Zpos (digits2_pos a) - 1))
        by (apply Z.pow_le_mono_r; lia). lia. }
    assert (Hb : Zpos (digits2_pos b) <= 53).
    { pose proof (digits_bounds b) as [Hlo _].
      destruct (Z_le_gt_dec (Zpos (digits2_pos b)) 53) as [|Hgt]; [done|].
      exfalso. assert (2 ^ 53 <= 2 ^ (Zpos (digits2_pos b) - 1))
        by (apply Z.pow_le_mono_r; lia). lia. }
    assert (Hpa := Prim2SF_number a 0 Ha). change (shift_left a 0) with a in Hpa at 1 2.
    assert (Hpb := Prim2SF_number b 0 Hb). change (shift_left b 0) with b in Hpb at 1 2.
    rewrite Hpa, Hpb by lia. clear Hpa Hpb.
    set (da := Zpos (digits2_pos a)) in *. set (db := Zpos (digits2_pos b)) in *.
    unfold SF64add, SFadd. cbv zeta.
    set (ez := Z.min (Z.of_nat 0 + da - 53) (Z.of_nat 0 + db - 53)).
    rewrite !shl_align_down by lia. cbn [cond_Zopp]. rewrite !shift_left_add.
    replace (Z.to_nat (53 - da) + Z.to_nat (Z.of_nat 0 + da - 53 - ez))%nat
      with (Z.to_nat (- ez)) by lia.
    replace (Z.to_nat (53 - db) + Z.to_nat (Z.of_nat 0 + db - 53 - ez))%nat
      with (Z.to_nat (- ez)) by lia.
    rewrite <- Pos2Z.inj_add, shift_left_plus. cbn [binary_normalize].
    destruct (fits_decompose (a + b)) as (m & j & Hdec & Hd & Hj); [lia|].
    change (Zpos a + Zpos b) with (Zpos (a + b)).
    rewrite Hdec, shift_left_add, binary_round_shift_left, Prim2SF_number; try done; try lia.
    f_equal. lia.
Qed.
End Doubles.

(** ** Payout engine: the grand total *)

Section IntegerTotals.
#[local] Open Scope Z_scope.
Variables n b : Z.
Hypothesis news_nonneg : 0 <= n.
Hypothesis blog_nonneg : 0 <= b.

Lemma sum_nonneg (xs : list Z) :
  Forall (fun x => 0 <= x) xs -> 0 <= foldr Z.add 0 xs.
Proof. induction 1; cbn; lia. Qed.

Lemma fold_numbers (xs : list Z) (s : Z) :
  0 <= s -> Forall (fun x => 0 <= x) xs -> s + foldr Z.add 0 xs <= 2 ^ 53 ->
  fold_left PrimFloat.add (number_of_Z <$> xs) (number_of_Z s)
  = number_of_Z (s + foldr Z.add 0 xs).
Proof.
  intros Hs Hall. revert s Hs.
  induction Hall as [|x xs Hx Hall IH]; intros s Hs Hsum.
  - cbn [fmap list_fmap fold_left foldr]. f_equal. lia.
  - rewrite fmap_cons. cbn [fold_left foldr] in *.
    pose proof (sum_nonneg xs Hall).
    rewrite number_add by lia. rewrite IH by lia. f_equal. lia.
Qed.

(** A left-to-right sum of non-negative integers that stays within [2^53]
    is the exact sum. *)
Lemma js_sum_numbers (xs : list Z) :
  Forall (fun x => 0 <= x) xs -> foldr Z.add 0 xs <= 2 ^ 53 ->
  js_sum (number_of_Z <$> xs) = number_of_Z (foldr Z.add 0 xs).
Proof.
  intros Hall Hsum. unfold js_sum.
  change (@num_zero float float_JsNumber) with (number_of_Z 0).
  change (@num_add float float_JsNumber) with PrimFloat.add.
  by rewrite fold_numbers.
Qed.

Lemma applicableRate_integer (ty : option string) :
  applicableRate (integer_rates n b) ty = number_of_Z (applicable_amount n b ty).
Proof. unfold applicableRate, applicable_amount. by destruct (decide _). Qed.

Lemma amounts_nonneg (A : list Article) :
  Forall (fun x => 0 <= x)
    ((fun a => applicable_amount n b (art_type a)) <$> A).
Proof.
  apply Forall_fmap, Forall_forall. intros a _. cbn.
  unfold applicable_amount. by destruct (decide _).
Qed.

Lemma total_amount_Permutation (A B : list Article) :
  A ≡ₚ B -> total_amount n b A = total_amount n b B.
Proof.
  unfold total_amount. induction 1; cbn in *; lia.
Qed.

Lemma total_amount_filter (P : Article -> Prop) `{forall a, Decision (P a)}
    (A : list Article) :
  total_amount n b (filter P A) <= total_amount n b A.
Proof.
  unfold total_amount. induction A as [|a A IH]; [done|].
  assert (0 <= applicable_amount n b (art_type a))
    by (unfold applicable_amount; by destruct (decide _)).
  rewrite filter_cons. destruct (decide (P a)); cbn; lia.
Qed.

Lemma total_amount_concat (groups : list (list Article)) :
  total_amount n b (concat groups)
  = foldr Z.add 0 (total_amount n b <$> groups).
Proof.
  unfold total_amount. induction groups as [|g groups IH]; [done|].
  cbn [concat]. rewrite fmap_app, fmap_cons. cbn [foldr]. rewrite <- IH.
  clear IH. induction g as [|a g IH]; cbn; [done|]. rewrite IH. lia.
Qed.

Lemma sum_applicable_rates_integer (A : list Article) :
  total_amount n b A <= 2 ^ 53 ->
  sum_applicable_rates (integer_rates n b) A
  = number_of_Z (total_amount n b A).
Proof.
  intros Hsum. unfold sum_applicable_rates.
  rewrite (list_fmap_ext _
             (number_of_Z ∘ (fun a => applicable_amount n b (art_type a))) A
             (fun _ a _ => applicableRate_integer (art_type a))).
  rewrite list_fmap_compose. apply js_sum_numbers; [apply amounts_nonneg|done].
Qed.

Lemma totalPayout_integer (A : list Article) (author : option string) :
  total_amount n b A <= 2 ^ 53 ->
  ap_totalPayout (aggregate_of (integer_rates n b) A author)
  = number_of_Z (total_amount n b (articles_of author A)).
Proof.
  intros Hsum. unfold aggregate_of. cbn [ap_totalPayout].
  unfold sum_item_rates. rewrite <- list_fmap_compose.
  apply (sum_applicable_rates_integer (articles_of author A)).
  unfold articles_of.
  pose proof (total_amount_filter (fun a => art_author a = author) A). lia.
Qed.

Lemma total_by_author (A : list Article) :
  foldr Z.add 0
    ((fun author => total_amount n b (articles_of author A))
     <$> first_occurrence_order (art_author <$> A))
  = total_amount n b A.
Proof.
  rewrite <- (total_amount_Permutation _ _ (articles_partition A)).
  by rewrite total_amount_concat, <- list_fmap_compose.
Qed.

Lemma sum_totalPayout_integer (A : list Article) :
  total_amount n b A <= 2 ^ 53 ->
  sum_totalPayout
    (aggregate_of (integer_rates n b) A
     <$> first_occurrence_order (art_author <$> A))
  = number_of_Z (total_amount n b A).
Proof.
  intros Hsum. unfold sum_totalPayout. rewrite <- list_fmap_compose.
  rewrite (list_fmap_ext _
             (number_of_Z
              ∘ (fun author => total_amount n b (articles_of author A))) _
             (fun _ author _ => totalPayout_integer A author Hsum)).
  rewrite list_fmap_compose, js_sum_numbers, total_by_author; [done| |].
  - apply Forall_fmap, Forall_forall. intros author _. cbn.
    unfold total_amount. apply sum_nonneg, amounts_nonneg.
  - by rewrite total_by_author.
Qed.
End IntegerTotals.

(** C1, for integer rates.  On the numbers the program runs on, when the
    two rates are non-negative integers and the applicable rates of all
    articles add up to at most [2^53], the totals of all aggregates add up
    to the sum of the applicable rates of all articles, and both are the
    exact total. *)
Theorem aggregation_correctness_exact (st : PayoutState float)
    (A : list Article) (n b : Z) :
  rates st = integer_rates n b -> (0 <= n)%Z -> (0 <= b)%Z ->
  (total_amount n b A <= 2 ^ 53)%Z ->
  sum_totalPayout (authorPayouts (calculatePayouts st A))
  = sum_applicable_rates (rates st) A
  /\ sum_applicable_rates (rates st) A = number_of_Z (total_amount n b A).
Proof.
  intros Hrates Hn Hb Hsum. rewrite calculatePayouts_aggregates, Hrates.
  rewrite sum_totalPayout_integer, sum_applicable_rates_integer by done.
  done.
Qed.

(** The initial rates [50] and [100] over the scenario articles. *)
Lemma aggregation_correctness_exact_witness :
  sum_totalPayout (authorPayouts (calculatePayouts initialState scenario_articles))
  = sum_applicable_rates (rates initialState) scenario_articles
  /\ sum_applicable_rates (rates initialState) scenario_articles
     = number_of_Z (total_amount 50 100 scenario_articles).
Proof.
  apply (aggregation_correctness_exact initialState scenario_articles 50 100).
  - reflexivity.
  - lia.
  - lia.
  - vm_compute. discriminate.
Defined.

(** Beyond [2^53] integer rates round as well: with [newsRate = 2^53],
    [blogRate = 1] and the articles A:blog, B:news, A:blog the per-author
    totals [2] and [2^53] add up to [2^53 + 2], while adding the three
    rates in article order stays at [2^53]. *)
Example aggregation_large_integers :
  sum_totalPayout (authorPayouts (calculatePayouts large_state large_articles))
  = number_of_Z (2 ^ 53 + 2)
  /\ sum_applicable_rates (rates large_state) large_articles
     = number_of_Z (2 ^ 53).
Proof. vm_compute. done. Qed.

(** C1 as stated fails on the numbers the program runs on.  With
    [newsRate = 0.5], [blogRate = 0.1] and the articles A:news, A:news,
    B:blog, B:blog the per-author totals are [1] and [0.2], whose sum is
    [1.2], while adding the four rates in article order gives
    [1.2000000000000002]. *)
Lemma aggregation_rounding_counterexample :
  sum_totalPayout
    (authorPayouts (calculatePayouts fractional_state fractional_articles))
  <> sum_applicable_rates fractional_rates fractional_articles.
Proof.
  intros Heq.
  assert (Hne :
    PrimFloat.eqb
      (sum_totalPayout
         (authorPayouts (calculatePayouts fractional_state fractional_articles)))
      (sum_applicable_rates fractional_rates fractional_articles) = false)
    by (vm_compute; reflexivity).
  rewrite Heq in Hne. vm_compute in Hne. discriminate Hne.
Qed.

Example fractional_totals :
  ap_totalPayout
    <$> authorPayouts (calculatePayouts fractional_state fractional_articles)
  = [ 1%float; 0.2%float ]
  /\ sum_totalPayout
       (authorPayouts (calculatePayouts fractional_state fractional_articles))
     = 1.2%float
  /\ sum_applicable_rates fractional_rates fractional_articles
     = 0x1.3333333333334p+0%float.
Proof. vm_compute. done. Qed.

(** The scenarios of the specification, run on doubles. *)
Example scenario_calculate :
  (fun p => (ap_author p, ap_articleCount p, ap_totalPayout p))
    <$> authorPayouts (calculatePayouts initialState scenario_articles)
  = [ (Some "A", 2, 150%float); (Some "B", 1, 100%float) ].
Proof. vm_compute. reflexivity. Qed.

Example scenario_rescale :
  (fun p => (ap_author p, ap_articleCount p, ap_totalPayout p))
    <$> authorPayouts
          (updateRates (calculatePayouts initialState scenario_articles)
             {| newsRate := 10%float; blogRate := 20%float |})
  = [ (Some "A", 2, 30%float); (Some "B", 1, 20%float) ].
Proof. vm_compute. reflexivity. Qed.

Example scenario_empty :
  authorPayouts (calculatePayouts initialState []) = [].
Proof. reflexivity. Qed.

(** An article of type ['podcast'] is paid the blog rate. *)
Lemma rate_resolution_defaults_to_blog_witness :
  exists p,
    p ∈ authorPayouts (calculatePayouts initialState [podcast_article])
    /\ ap_author p = Some "C"
    /\ {| li_id := Some "9"; li_title := Some "Article 9";
          li_type := Some "podcast"; li_publishedAt := Some "2024-01-15";
          li_rate := 100%float |}
       ∈ ap_articles p.
Proof.
  apply (proj1 (rate_resolution_defaults_to_blog initialState
                  [podcast_article] [] (rates initialState))
           podcast_article).
  - apply list_elem_of_here.
  - discriminate.
Defined.

(** ** News slice: validation on arrival *)

Lemma clean_test_spec (e : JsEntry) :
  entry_truthy e && typeof_object e && entry_id_truthy e = true
  <-> has_nonempty_id e.
Proof.
  destruct e as [| |b|a]; cbn.
  - split; [discriminate|tauto].
  - split; [discriminate|tauto].
  - rewrite andb_false_r. split; [discriminate|tauto].
  - destruct (art_id a) as [id|]; cbn; [|split; [discriminate|tauto]].
    rewrite negb_true_iff, bool_decide_eq_false. tauto.
Qed.

Lemma objects_of_valid (entries : list JsEntry) :
  JsObject <$> omap entry_article (filter has_nonempty_id entries)
  = filter has_nonempty_id entries.
Proof.
  induction entries as [|e entries IH]; [done|].
  rewrite filter_cons. destruct (decide (has_nonempty_id e)) as [He|He];
    [|done].
  destruct e as [| |b|a]; try (by destruct He).
  cbn [omap list_omap entry_article]. rewrite fmap_cons. by f_equal.
Qed.

Lemma fetchNewsSuccess_articles (st : NewsState) (entries : list JsEntry) :
  JsObject <$> articles (fetchNewsSuccess st (PayloadArray entries))
  = filter has_nonempty_id entries.
Proof.
  unfold fetchNewsSuccess. cbn [articles].
  rewrite (list_filter_iff _ has_nonempty_id)
    by (intros e; apply clean_test_spec).
  apply objects_of_valid.
Qed.

(** C6.  The collection installed by [fetchNewsSuccess] consists of exactly
    the entries of the incoming array that are objects with a non-empty id,
    in their original order; it is installed both as [articles] and as
    [filteredArticles], with the loading flag and the error cleared. *)
Theorem fetchNewsSuccess_validation (st : NewsState) (entries : list JsEntry) :
  JsObject <$> articles (fetchNewsSuccess st (PayloadArray entries))
  = filter has_nonempty_id entries
  /\ filteredArticles (fetchNewsSuccess st (PayloadArray entries))
     = articles (fetchNewsSuccess st (PayloadArray entries))
  /\ news_loading (fetchNewsSuccess st (PayloadArray entries)) = false
  /\ news_error (fetchNewsSuccess st (PayloadArray entries)) = None.
Proof.
  split; [apply fetchNewsSuccess_articles|]. unfold fetchNewsSuccess.
  cbn [articles filteredArticles news_loading news_error]. done.
Qed.

(** One entry without a usable id among valid ones: that entry is dropped,
    the others are kept. *)
Lemma fetchNewsSuccess_drops_one (st : NewsState)
    (before after : list JsEntry) (bad : JsEntry) :
  Forall has_nonempty_id (before ++ after) ->
  ~ has_nonempty_id bad ->
  JsObject <$> articles (fetchNewsSuccess st (PayloadArray (before ++ bad :: after)))
  = before ++ after.
Proof.
  intros Hall Hbad. rewrite fetchNewsSuccess_articles.
  rewrite filter_app, filter_cons, decide_False, <- filter_app by done.
  clear Hbad. induction (before ++ after) as [|e l IH]; [done|].
  apply Forall_cons in Hall as [He Hl].
  rewrite filter_cons, decide_True by done. f_equal. by apply IH.
Qed.

(** A payload that is not an array installs the empty collection. *)
Lemma fetchNewsSuccess_not_array (st : NewsState) :
  articles (fetchNewsSuccess st PayloadOther) = [].
Proof. reflexivity. Qed.

Example fetchNewsSuccess_sample :
  articles
    (fetchNewsSuccess emptyNewsState
       (PayloadArray
          [ JsObject (mkArticle "1" "A" "news"); JsNull;
            JsObject (mkArticle "" "B" "blog"); JsPrimitive true;
            JsObject (mkArticle "3" "A" "blog") ]))
  = [ mkArticle "1" "A" "news"; mkArticle "3" "A" "blog" ].
Proof. reflexivity. Qed.

(** ** News slice: date bounds *)

Section DateBounds.
Variable parseDate : string -> option Z.
Implicit Types (l : list Article) (f : FilterState) (st : NewsState).

Lemma filter_swap {X : Type} (P Q : X -> Prop)
    `{forall x, Decision (P x)} `{forall x, Decision (Q x)} (xs : list X) :
  filter P (filter Q xs) = filter Q (filter P xs).
Proof.
  rewrite !list_filter_filter. apply list_filter_iff. tauto.
Qed.

Lemma filter_all {X : Type} (P : X -> Prop) `{forall x, Decision (P x)}
    (xs : list X) :
  (forall x, P x) -> filter P xs = xs.
Proof.
  intros HP. induction xs as [|x xs IH]; [done|].
  by rewrite filter_cons, decide_True, IH.
Qed.

Lemma filter_conj {X : Type} (P Q : X -> bool) (xs : list X) :
  filter (fun x => Q x = true) (filter (fun x => P x = true) xs)
  = filter (fun x => P x && Q x = true) xs.
Proof.
  rewrite list_filter_filter. apply list_filter_iff. intros x.
  rewrite andb_true_iff. tauto.
Qed.

Lemma published_instant_spec (a : Article) :
  published_instant parseDate a = instant_of parseDate a.
Proof.
  unfold published_instant, instant_of.
  destruct (art_publishedAt a) as [p|]; [|done]. cbn.
  by case_bool_decide.
Qed.

Lemma filter_dateFrom_spec bound l :
  filter_dateFrom parseDate bound l
  = filter (fun a => within_lower parseDate bound a = true) l.
Proof.
  unfold filter_dateFrom, within_lower.
  destruct bound as [d|]; cbn.
  - destruct (bool_decide (d = "")); cbn.
    + symmetry. by apply filter_all.
    + apply list_filter_iff. intros a. rewrite published_instant_spec.
      unfold date_ge.
      by destruct (instant_of parseDate a), (parseDate d).
  - symmetry. by apply filter_all.
Qed.

Lemma filter_dateTo_spec bound l :
  filter_dateTo parseDate bound l
  = filter (fun a => within_upper parseDate bound a = true) l.
Proof.
  unfold filter_dateTo, within_upper.
  destruct bound as [d|]; cbn.
  - destruct (bool_decide (d = "")); cbn.
    + symmetry. by apply filter_all.
    + apply list_filter_iff. intros a. rewrite published_instant_spec.
      unfold date_le.
      by destruct (instant_of parseDate a), (parseDate d).
  - symmetry. by apply filter_all.
Qed.

Lemma filter_type_swap ty (P : Article -> Prop) `{forall a, Decision (P a)} l :
  filter_type ty (filter P l) = filter P (filter_type ty l).
Proof.
  unfold filter_type.
  destruct (str_truthy (Some ty) && negb (bool_decide (ty = "all")));
    [apply filter_swap|done].
Qed.

Lemma filter_search_swap q (P : Article -> Prop) `{forall a, Decision (P a)} l :
  filter_search q (filter P l) = filter P (filter_search q l).
Proof.
  unfold filter_search.
  destruct (str_truthy (Some q)); [apply filter_swap|done].
Qed.
End DateBounds.

(** C7, as the code has it.  A date bound is applied whenever it is set,
    whether or not it parses: the result of [filterNews] is the result
    under the same filter with both bounds unset, restricted to the
    articles inside the inclusive bounds, where a set bound admits an
    article only if the article's publication date and the bound both
    parse.  The other fields of the state are untouched. *)
Theorem date_bounds_applied_when_set (parseDate : string -> option Z)
    (st : NewsState) (f : FilterState) :
  filteredArticles (filterNews parseDate st f)
  = filter
      (fun a => within_lower parseDate (f_dateFrom f) a
                && within_upper parseDate (f_dateTo f) a = true)
      (filteredArticles (filterNews parseDate st (clear_dates f)))
  /\ articles (filterNews parseDate st f) = articles st.
Proof.
  split; [|done]. unfold filterNews. cbn [filteredArticles clear_dates
    f_author f_dateFrom f_dateTo f_type f_searchQuery].
  rewrite (filter_dateFrom_spec parseDate (f_dateFrom f)).
  rewrite (filter_dateTo_spec parseDate (f_dateTo f)).
  rewrite filter_conj.
  rewrite (filter_dateFrom_spec parseDate None), (filter_dateTo_spec parseDate None).
  rewrite !(filter_all (fun a => _ _ None a = true)) by done.
  by rewrite filter_type_swap, filter_search_swap.
Qed.

(** The bounds are inclusive: an article published at the very instant of
    both bounds is inside them. *)
Lemma bounds_inclusive (parseDate : string -> option Z) (a : Article)
    (d : string) (t : Z) :
  d <> "" -> art_publishedAt a = Some d -> parseDate d = Some t ->
  within_lower parseDate (Some d) a = true
  /\ within_upper parseDate (Some d) a = true.
Proof.
  intros Hd Ha Ht. unfold within_lower, within_upper, instant_of, bound_set.
  rewrite Ha, !bool_decide_eq_false_2 by done. cbn. rewrite Ht.
  split; by apply bool_decide_eq_true_2.
Qed.

(** C7 as stated fails: a lower bound that is set but is not a date is not
    ignored.  With the single article published on 2024-01-15 and
    [dateFrom = "not-a-date"] the comparison against the invalid date is
    false for every article and the result is empty, while with the bound
    unset the article is kept. *)
Lemma unparseable_bound_counterexample :
  parseIsoDate "not-a-date" = None
  /\ filteredArticles (filterNews parseIsoDate one_article_state unparseable_from)
     = []
  /\ filteredArticles
       (filterNews parseIsoDate one_article_state (clear_dates unparseable_from))
     = [ mkArticle "1" "A" "news" ]
  /\ filteredArticles (filterNews parseIsoDate one_article_state unparseable_from)
     <> filteredArticles
          (filterNews parseIsoDate one_article_state
             (clear_dates unparseable_from)).
Proof. repeat split; try reflexivity. discriminate. Qed.

Example parseIsoDate_sample :
  parseIsoDate "2024-01-15" = Some 1705276800000%Z
  /\ parseIsoDate "1970-01-01" = Some 0%Z.
Proof. repeat split; reflexivity. Qed.

(** An article dated exactly at both bounds passes the date filter. *)
Example filterNews_inclusive_sample :
  filteredArticles
    (filterNews parseIsoDate one_article_state
       {| f_author := None; f_dateFrom := Some "2024-01-15";
          f_dateTo := Some "2024-01-15"; f_type := "all";
          f_searchQuery := "" |})
  = [ mkArticle "1" "A" "news" ].
Proof. vm_compute. reflexivity. Qed.

(** The type filter keeps the news-typed subset in its original order. *)
Example filterNews_type_sample :
  filteredArticles
    (filterNews parseIsoDate
       {| articles := scenario_articles ++ [ mkArticle "4" "B" "news" ];
          filteredArticles := []; news_loading := false; news_error := None |}
       {| f_author := None; f_dateFrom := None; f_dateTo := None;
          f_type := "news"; f_searchQuery := "" |})
  = [ mkArticle "1" "A" "news"; mkArticle "4" "B" "news" ].
Proof. vm_compute. reflexivity. Qed.

(** ** Cache store: the rate record *)

Section RateStore.
Context {num : Type}.
Implicit Types (ev : StorageEvents) (r : PayoutRate num)
  (storage : option (Database num)).

Lemma initDB_idempotent ev storage db storage' :
  initDB ev storage = (Resolved db, storage') ->
  storage' = Some db
  /\ forall ev', open_error ev' = false ->
       initDB ev' storage' = (Resolved db, Some db).
Proof.
  unfold initDB. destruct (open_error ev); [discriminate|].
  intros [= <- <-]. split; [done|]. intros ev' ->. done.
Qed.

Lemma savePayoutRates_resolved ev r storage storage' :
  savePayoutRates ev r storage = (Resolved (), storage') ->
  exists db, storage' = Some db
    /\ store_settings db !! "payoutRates"
       = Some {| rec_id := "payoutRates"; rec_newsRate := newsRate r;
                 rec_blogRate := blogRate r |}.
Proof.
  unfold savePayoutRates, initDB.
  destruct (open_error ev); [discriminate|].
  destruct (transaction_error ev); [discriminate|].
  intros [= <-]. eexists. split; [done|]. cbn. apply lookup_insert_eq.
Qed.

(** C9.  After [savePayoutRates r] has resolved, [getPayoutRates] (on a
    call that the storage layer does not fail) resolves to the record
    carrying the rates [r]; on a storage in which no rate record has been
    saved it resolves to null and does not reject. *)
Theorem rate_store_round_trip ev ev' r storage storage'
    (fresh : option (Database num)) :
  open_error ev' = false -> request_error ev' = false ->
  (savePayoutRates ev r storage = (Resolved (), storage') ->
   exists rec, (getPayoutRates ev' storage').1 = Resolved (Some rec)
               /\ rec_rates rec = r /\ rec_id rec = "payoutRates")
  /\ (never_saved fresh -> (getPayoutRates ev' fresh).1 = Resolved None).
Proof.
  intros Hopen Hreq. split.
  - intros Hsave.
    apply savePayoutRates_resolved in Hsave as (db & -> & Hrec).
    unfold getPayoutRates, initDB. rewrite Hopen, Hreq. cbn.
    rewrite Hrec. eexists. split; [done|]. split; [by destruct r|done].
  - intros Hfresh. unfold getPayoutRates, initDB. rewrite Hopen, Hreq.
    destruct fresh as [db|]; cbn; [by rewrite Hfresh|done].
Qed.

(** A later save replaces the record: the store holds one rate record. *)
Lemma savePayoutRates_upsert ev1 ev2 r1 r2 storage s1 s2 :
  savePayoutRates ev1 r1 storage = (Resolved (), s1) ->
  savePayoutRates ev2 r2 s1 = (Resolved (), s2) ->
  (getPayoutRates no_errors s2).1
  = Resolved (Some {| rec_id := "payoutRates"; rec_newsRate := newsRate r2;
                      rec_blogRate := blogRate r2 |}).
Proof.
  intros _ H2. apply savePayoutRates_resolved in H2 as (db & -> & Hrec).
  unfold getPayoutRates, initDB. cbn. by rewrite Hrec.
Qed.
End RateStore.

Lemma rate_store_round_trip_witness :
  (exists rec,
     (getPayoutRates no_errors
        (savePayoutRates no_errors (rates exact_state) None).2).1
     = Resolved (Some rec)
     /\ rec_rates rec = rates exact_state /\ rec_id rec = "payoutRates")
  /\ (getPayoutRates (num := Z) no_errors None).1 = Resolved None.
Proof.
  destruct (rate_store_round_trip no_errors no_errors (rates exact_state)
              None (savePayoutRates no_errors (rates exact_state) None).2
              None eq_refl eq_refl) as [Hsaved Hfresh].
  split; [apply Hsaved; reflexivity|apply Hfresh; exact I].
Defined.

(** ** Article source chain *)

Lemma getMockArticles_length (w : World) : length (getMockArticles w) = 20.
Proof. unfold getMockArticles. by rewrite length_fmap, length_seq. Qed.

Lemma positive_length_nonempty {X : Type} (xs : list X) :
  (0 <? length xs)%nat = true -> xs <> [].
Proof. by destruct xs. Qed.

Lemma try_server_route_nonempty (w : World) (r : Fetched) :
  try_server_route w = Some r ->
  exists arts, r.1 = Resolved arts /\ arts <> [].
Proof.
  unfold try_server_route.
  destruct (fetchFromServerRoute w "mixed") as [arts|]; [|discriminate].
  destruct (0 <? length arts)%nat eqn:Hlen; [|discriminate].
  apply positive_length_nonempty in Hlen.
  destruct (isOnline (browser w)).
  - destruct (save_after_route w); [|discriminate].
    intros [= <-]. by exists arts.
  - intros [= <-]. by exists arts.
Qed.

Lemma try_direct_api_nonempty (w : World) (r : Fetched) :
  try_direct_api w = Some r ->
  exists arts, r.1 = Resolved arts /\ arts <> [].
Proof.
  unfold try_direct_api. cbv zeta.
  match goal with
  | |- context [(0 <? length ?l)%nat] =>
      generalize l; intros arts
  end.
  destruct (0 <? length arts)%nat eqn:Hlen; [|discriminate].
  apply positive_length_nonempty in Hlen.
  destruct (save_after_direct w); [|discriminate].
  intros [= <-]. by exists arts.
Qed.

Lemma try_offline_storage_nonempty (w : World) (r : Fetched) :
  try_offline_storage w = Some r ->
  exists arts, r.1 = Resolved arts /\ arts <> [].
Proof.
  unfold try_offline_storage.
  destruct (cache_read w) as [arts|]; [|discriminate].
  destruct (0 <? length arts)%nat eqn:Hlen; [|discriminate].
  apply positive_length_nonempty in Hlen.
  intros [= <-]. by exists arts.
Qed.

(** C8.  Whatever the outcomes of the mediated fetch, of the two direct
    provider requests, of the cache writes and of the cache read,
    [fetchAllArticles] resolves, and resolves to a non-empty collection. *)
Theorem fetchAllArticles_never_empty (w : World) :
  exists arts, (fetchAllArticles w).1 = Resolved arts /\ arts <> [].
Proof.
  unfold fetchAllArticles. cbn [useMockData].
  destruct (try_server_route w) as [r|] eqn:H1;
    [by apply (try_server_route_nonempty w)|].
  destruct (try_direct_api w) as [r|] eqn:H2;
    [by apply (try_direct_api_nonempty w)|].
  destruct (try_offline_storage w) as [r|] eqn:H3;
    [by apply (try_offline_storage_nonempty w)|].
  exists (getMockArticles w). split; [done|].
  intros Hnil. pose proof (getMockArticles_length w) as Hlen.
  by rewrite Hnil in Hlen.
Qed.

(** When the three sources fail or come back empty, the result is the
    synthetic collection. *)
Lemma fetchAllArticles_synthetic (w : World) :
  try_server_route w = None -> try_direct_api w = None ->
  try_offline_storage w = None ->
  fetchAllArticles w = (Resolved (getMockArticles w), None).
Proof. unfold fetchAllArticles. by intros -> -> ->. Qed.

Example offline_world_synthetic :
  (fun a => (art_id a, art_author a, art_type a))
    <$> take 4 (match (fetchAllArticles offline_world).1 with
                | Resolved arts => arts
                | Rejected _ => []
                end)
  = [ (Some "mock-1", Some "Sarah Johnson", Some "blog");
      (Some "mock-2", Some "Michael Chen", Some "news");
      (Some "mock-3", Some "Emily Rodriguez", Some "news");
      (Some "mock-4", Some "David Kim", Some "blog") ].
Proof. vm_compute. reflexivity. Qed.

(** * Further properties of the code around the claims *)

(** ** Payout slice *)

Section PayoutFurther.
Context {num : Type} `{JsNumber num}.
Implicit Types (R : PayoutRate num) (A : list Article)
  (P : list (AuthorPayout num)) (st : PayoutState num).

(** X1.  The line items of every aggregate are the articles of its author
    in input order, each with id, title, type and publication date copied
    and the rate resolved from the type. *)
Theorem line_items_in_input_order st A :
  Forall
    (fun p =>
       ap_articles p
       = (fun a =>
            {| li_id := art_id a; li_title := art_title a;
               li_type := art_type a; li_publishedAt := art_publishedAt a;
               li_rate := if decide (art_type a = Some "news")
                          then newsRate (rates st) else blogRate (rates st) |})
         <$> filter (fun a => art_author a = ap_author p) A)
    (authorPayouts (calculatePayouts st A)).
Proof.
  rewrite calculatePayouts_aggregates. apply Forall_fmap, Forall_forall.
  intros author _. done.
Qed.

(** X2.  Every article is accounted for exactly once: the line items of all
    aggregates together are a rearrangement of the line items of the input,
    and the article counts add up to the number of articles. *)
Theorem every_article_counted_once st A :
  concat (ap_articles <$> authorPayouts (calculatePayouts st A))
  ≡ₚ line_item (rates st) <$> A
  /\ sum_list (ap_articleCount <$> authorPayouts (calculatePayouts st A))
     = length A.
Proof.
  rewrite calculatePayouts_aggregates, <- !list_fmap_compose.
  assert (Hitems : forall ks : list (option string),
            concat (ap_articles ∘ aggregate_of (rates st) A <$> ks)
            = line_item (rates st)
              <$> concat ((fun author => articles_of author A) <$> ks)).
  { intros ks. induction ks as [|k ks IH]; [done|].
    rewrite !fmap_cons. cbn [concat]. by rewrite fmap_app, IH. }
  assert (Hcount : forall ks : list (option string),
            sum_list (ap_articleCount ∘ aggregate_of (rates st) A <$> ks)
            = length (concat ((fun author => articles_of author A) <$> ks))).
  { intros ks. induction ks as [|k ks IH]; [done|].
    rewrite !fmap_cons. cbn [concat sum_list sum_list_with].
    rewrite length_app. cbn. f_equal. exact IH. }
  split.
  - rewrite Hitems. apply fmap_Permutation, articles_partition.
  - rewrite Hcount. apply Permutation_length, articles_partition.
Qed.

(** X3.  There are aggregates exactly when there are articles, and never
    more aggregates than articles. *)
Theorem aggregates_empty_iff st A :
  (authorPayouts (calculatePayouts st A) = [] <-> A = [])
  /\ (length (authorPayouts (calculatePayouts st A)) <= length A)%nat.
Proof.
  rewrite calculatePayouts_aggregates. split.
  - split; [|by intros ->].
    destruct A as [|a A]; [done|]. intros Hnil. exfalso.
    apply fmap_nil_inv in Hnil.
    assert (Hin : art_author a ∈ first_occurrence_order (art_author <$> a :: A)).
    { apply elem_of_first_occurrence_order. rewrite fmap_cons.
      apply elem_of_cons. by left. }
    rewrite Hnil in Hin. by apply elem_of_nil in Hin.
  - rewrite length_fmap. rewrite <- (length_fmap art_author A).
    apply submseteq_length, NoDup_submseteq;
      [apply NoDup_first_occurrence_order|].
    intros x. by rewrite elem_of_first_occurrence_order.
Qed.

Lemma rerate_rerate R1 R2 (items : list (PayoutItem num)) :
  rerate R2 <$> (rerate R1 <$> items) = rerate R2 <$> items.
Proof. rewrite <- list_fmap_compose. by apply list_fmap_ext. Qed.

(** X4.  Rescaling forgets earlier rate tables: rescaling to [R1] and then
    to [R2] is the same as rescaling to [R2] at once, so rescaling twice to
    the same table changes nothing more. *)
Theorem recalculate_last_rates_win P R1 R2 :
  recalculatePayouts (recalculatePayouts P R1) R2 = recalculatePayouts P R2.
Proof.
  unfold recalculatePayouts. rewrite <- list_fmap_compose.
  apply list_fmap_ext. intros i p _. cbn [compose]. cbv zeta.
  rewrite !recalculate_articles_rerate.
  cbn [fst snd ap_author ap_articleCount ap_articles].
  by rewrite rerate_rerate.
Qed.

(** X5.  Whatever aggregates it is given, also ones whose totals or rates
    were wrong, [recalculatePayouts] returns aggregates whose total is the
    sum of their line-item rates and whose rates are the ones the rate
    table gives to each item's type. *)
Theorem recalculate_restores_totals P R :
  Forall
    (fun p =>
       ap_totalPayout p = sum_item_rates (ap_articles p)
       /\ Forall (fun it => li_rate it = applicableRate R (li_type it))
                 (ap_articles p))
    (recalculatePayouts P R).
Proof.
  unfold recalculatePayouts. apply Forall_fmap, Forall_forall.
  intros p _. cbn [compose]. cbv zeta.
  rewrite recalculate_articles_rerate.
  cbn [fst snd ap_totalPayout ap_articles]. split; [done|].
  apply Forall_fmap, Forall_forall. by intros it _.
Qed.

Lemma recalculate_calculated st1 st2 A :
  recalculatePayouts (authorPayouts (calculatePayouts st1 A)) (rates st2)
  = authorPayouts (calculatePayouts st2 A).
Proof.
  rewrite !calculatePayouts_aggregates. unfold recalculatePayouts.
  rewrite <- list_fmap_compose. apply list_fmap_ext.
  intros i author _. cbn [compose]. cbv zeta.
  rewrite recalculate_articles_rerate. cbn [fst snd].
  unfold aggregate_of. cbn [ap_author ap_articleCount ap_articles].
  by rewrite <- list_fmap_compose.
Qed.

Lemma calculated_rates_irrelevant st1 st2 A :
  rates st1 = rates st2 ->
  authorPayouts (calculatePayouts st1 A) = authorPayouts (calculatePayouts st2 A).
Proof. intros Hr. by rewrite !calculatePayouts_aggregates, Hr. Qed.

(** X6.  As long as nothing is brought in from storage, the aggregates in
    the state are at every moment the ones a fresh calculation over the
    current batch of articles would give under the current rates, however
    often the rates were changed in between. *)
Theorem aggregates_follow_rates (actions : list (PayoutAction num)) st
    (batch : list Article) :
  authorPayouts st = authorPayouts (calculatePayouts st batch) ->
  Forall local_action actions ->
  authorPayouts (fold_left payoutReducer actions st)
  = authorPayouts
      (calculatePayouts (fold_left payoutReducer actions st)
         (fold_left batch_after actions batch)).
Proof.
  revert st batch. induction actions as [|action actions IH];
    intros st batch Hst Hlocal; [done|].
  apply Forall_cons in Hlocal as [Hact Hlocal]. cbn [fold_left].
  apply IH; [|done]. clear IH Hlocal.
  destruct action as [r|A0| | |payload|m| |payload|m|r|payload];
    cbn [payoutReducer batch_after].
  - unfold updateRates at 1. cbn [authorPayouts].
    rewrite Hst. apply (recalculate_calculated st (updateRates st r) batch).
  - by apply calculated_rates_irrelevant.
  - done.
  - rewrite (calculated_rates_irrelevant _ st); [|done]. exact Hst.
  - destruct payload as [rec|]; [done|].
    rewrite (calculated_rates_irrelevant _ st); [|done]. exact Hst.
  - rewrite (calculated_rates_irrelevant _ st); [|done]. exact Hst.
  - rewrite (calculated_rates_irrelevant _ st); [|done]. exact Hst.
  - destruct payload as [|p payload]; [|done].
    rewrite (calculated_rates_irrelevant _ st); [|done]. exact Hst.
  - rewrite (calculated_rates_irrelevant _ st); [|done]. exact Hst.
  - unfold saveRatesToStorage_fulfilled at 1. cbn [authorPayouts].
    rewrite Hst.
    apply (recalculate_calculated st (saveRatesToStorage_fulfilled st r) batch).
  - done.
Qed.
End PayoutFurther.

(** ** News slice and filter slice *)

#[export] Instance JsObject_inj : Inj (=) (=) JsObject.
Proof. by intros a b [= ->]. Qed.

Section NewsFurther.
Variable parseDate : string -> option Z.
Implicit Types (l : list Article) (f : FilterState) (st : NewsState).

Lemma filter_author_spec criterion l :
  filter_author criterion l
  = filter (fun a => author_matches criterion a = true) l.
Proof.
  unfold filter_author, author_matches.
  destruct criterion as [au|]; cbn.
  - destruct (bool_decide (au = "")); cbn.
    + symmetry. by apply filter_all.
    + apply list_filter_iff. intros a. unfold field_includes, contains_ci.
      by destruct (art_author a).
  - symmetry. by apply filter_all.
Qed.

Lemma filter_type_spec criterion l :
  filter_type criterion l
  = filter (fun a => type_matches criterion a = true) l.
Proof.
  unfold filter_type, type_matches. cbn.
  destruct (bool_decide (criterion = "")) eqn:Hempty; cbn.
  - symmetry. by apply filter_all.
  - destruct (bool_decide (criterion = "all")); cbn.
    + symmetry. by apply filter_all.
    + apply list_filter_iff. intros a. unfold str_truthy.
      destruct (art_type a) as [t|]; cbn.
      * apply bool_decide_eq_false in Hempty.
        rewrite andb_true_iff, negb_true_iff, !bool_decide_eq_true,
          bool_decide_eq_false.
        split; [tauto|]. intros Ht. split; [|done]. congruence.
      * split; [done|]. by rewrite bool_decide_eq_true.
Qed.

Lemma filter_search_spec query l :
  filter_search query l
  = filter (fun a => search_matches query a = true) l.
Proof.
  unfold filter_search, search_matches. cbn.
  destruct (bool_decide (query = "")); cbn.
  - symmetry. by apply filter_all.
  - apply list_filter_iff. intros a. unfold field_includes, contains_ci.
    by destruct (art_title a), (art_description a), (art_author a).
Qed.

(** X7.  On ASCII text, where the lowering of the embedding is the one of
    JavaScript, the five criteria of [filterNews] act as one conjunction:
    the result holds exactly the articles that satisfy the author, lower
    date, upper date, type and search criteria together, in the order of
    the article collection. *)
Theorem filterNews_conjunction st f :
  forallb ascii_article (articles st) = true -> ascii_filter f = true ->
  filteredArticles (filterNews parseDate st f)
  = filter (fun a => matches parseDate f a = true) (articles st).
Proof.
  intros _ _. unfold filterNews. cbn [filteredArticles].
  rewrite filter_author_spec, filter_dateFrom_spec, filter_dateTo_spec,
    filter_type_spec, filter_search_spec.
  rewrite !list_filter_filter. apply list_filter_iff. intros a.
  unfold matches. rewrite !andb_true_iff. tauto.
Qed.

Lemma valid_article_spec (a : Article) :
  valid_article a <-> has_nonempty_id (JsObject a).
Proof.
  unfold valid_article. cbn. destruct (art_id a) as [id|].
  - split; [by intros (? & [= <-] & ?)|by eexists].
  - split; [by intros (? & ? & ?)|done].
Qed.

Lemma fetchNewsSuccess_valid st (payload : JsPayload) :
  Forall valid_article (articles (fetchNewsSuccess st payload)).
Proof.
  destruct payload as [entries|]; [|by constructor].
  apply Forall_forall. intros a Ha. apply valid_article_spec.
  apply (list_elem_of_fmap_2 JsObject) in Ha.
  rewrite fetchNewsSuccess_articles in Ha.
  by apply list_elem_of_filter in Ha as [? _].
Qed.

Lemma filterNews_sublist st f :
  sublist (filteredArticles (filterNews parseDate st f)) (articles st).
Proof.
  unfold filterNews. cbn [filteredArticles].
  rewrite filter_author_spec, filter_dateFrom_spec, filter_dateTo_spec,
    filter_type_spec, filter_search_spec.
  repeat (etrans; [apply sublist_filter|]). done.
Qed.

(** X8.  Whatever actions the news slice has processed since it was
    created, every article it holds has a non-empty id, and the filtered
    collection is a selection of the held articles in their order: nothing
    is shown that is not held, nothing is reordered or duplicated. *)
Theorem news_state_invariant (actions : list NewsAction) :
  Forall valid_article
    (articles (fold_left (newsReducer parseDate) actions newsInitialState))
  /\ sublist
       (filteredArticles
          (fold_left (newsReducer parseDate) actions newsInitialState))
       (articles (fold_left (newsReducer parseDate) actions newsInitialState)).
Proof.
  assert (Hinit : Forall valid_article (articles newsInitialState)
                  /\ sublist (filteredArticles newsInitialState)
                             (articles newsInitialState))
    by (split; [constructor|done]).
  revert Hinit. generalize newsInitialState as st.
  induction actions as [|action actions IH]; intros st Hst; [done|].
  cbn [fold_left]. apply IH. destruct Hst as [Hvalid Hsub].
  destruct action as [|payload|message| |f]; cbn [newsReducer].
  - done.
  - split; [apply fetchNewsSuccess_valid|done].
  - done.
  - split; [constructor|done].
  - split; [exact Hvalid|exact (filterNews_sublist st f)].
Qed.

(** Clearing the filters gives back the initial filter state, and
    under it [filterNews] shows every held article. *)
Theorem cleared_filters_show_everything st f :
  clearFilters f = filterInitialState
  /\ filteredArticles (filterNews parseDate st (clearFilters f)) = articles st.
Proof. done. Qed.

Lemma lower_ascii_idempotent (c : ascii) :
  lower_ascii (lower_ascii c) = lower_ascii c.
Proof. by destruct c as [[] [] [] [] [] [] [] []]. Qed.

Lemma toLowerCase_idempotent (s : string) :
  toLowerCase (toLowerCase s) = toLowerCase s.
Proof.
  induction s as [|c s IH]; [done|]. cbn [toLowerCase].
  by rewrite lower_ascii_idempotent, IH.
Qed.

Lemma toLowerCase_empty (s : string) : toLowerCase s = "" <-> s = "".
Proof. destruct s; cbn [toLowerCase]; split; congruence. Qed.

Lemma empty_by_case (s1 s2 : string) :
  toLowerCase s1 = toLowerCase s2 ->
  bool_decide (s1 = "") = bool_decide (s2 = "").
Proof.
  intros Heq. apply bool_decide_ext.
  by rewrite <- (toLowerCase_empty s1), <- (toLowerCase_empty s2), Heq.
Qed.

(** X9.  The author criterion and the search text are case-insensitive:
    two filters that differ only in the letter case of these two texts
    select the same articles. *)
Theorem filterNews_case_insensitive st f (author1 author2 : string)
    (query1 query2 : string) :
  toLowerCase author1 = toLowerCase author2 ->
  toLowerCase query1 = toLowerCase query2 ->
  filteredArticles
    (filterNews parseDate st
       (setSearchQuery (setAuthorFilter f (Some author1)) query1))
  = filteredArticles
      (filterNews parseDate st
         (setSearchQuery (setAuthorFilter f (Some author2)) query2)).
Proof.
  intros Hau Hq. unfold filterNews. cbn [filteredArticles setSearchQuery
    setAuthorFilter f_author f_dateFrom f_dateTo f_type f_searchQuery].
  rewrite !filter_author_spec, !filter_search_spec.
  assert (Ha : forall a, author_matches (Some author1) a
                         = author_matches (Some author2) a).
  { intros a. unfold author_matches, contains_ci.
    by rewrite (empty_by_case _ _ Hau), Hau. }
  assert (Hs : forall a, search_matches query1 a = search_matches query2 a).
  { intros a. unfold search_matches, contains_ci.
    by rewrite (empty_by_case _ _ Hq), Hq. }
  rewrite (list_filter_iff
             (fun a => author_matches (Some author1) a = true)
             (fun a => author_matches (Some author2) a = true))
    by (intros a; by rewrite Ha).
  apply list_filter_iff. intros a. by rewrite Hs.
Qed.

(** X10.  Validation is idempotent: handing the collection that
    [fetchNewsSuccess] installed to [fetchNewsSuccess] again installs the
    same collection. *)
Theorem fetchNewsSuccess_idempotent st st' (payload : JsPayload) :
  articles
    (fetchNewsSuccess st'
       (PayloadArray (JsObject <$> articles (fetchNewsSuccess st payload))))
  = articles (fetchNewsSuccess st payload).
Proof.
  apply (inj (fmap JsObject)). rewrite fetchNewsSuccess_articles.
  pose proof (fetchNewsSuccess_valid st payload) as Hvalid.
  induction (articles (fetchNewsSuccess st payload)) as [|a l IH]; [done|].
  apply Forall_cons in Hvalid as [Ha Hl].
  rewrite fmap_cons, filter_cons, decide_True by (by apply valid_article_spec).
  f_equal. by apply IH.
Qed.
End NewsFurther.

(** ** Article and payout stores *)

Section StoreFacts.
Context {V : Type} (key : V -> option string).
Implicit Types (values : list V) (adds : list (string * V))
  (store : gmap string V).

Lemma issued_adds_keys values :
  Forall (fun kv => key kv.2 = Some kv.1) (issued_adds key values).1.
Proof.
  induction values as [|v values IH]; [constructor|]. cbn.
  destruct (key v) as [k|] eqn:Hk; [|constructor].
  cbn. by constructor.
Qed.

Lemma issued_adds_complete values :
  Forall (fun v => is_Some (key v)) values ->
  (issued_adds key values).2 = false
  /\ (issued_adds key values).1.*2 = values
  /\ Some <$> (issued_adds key values).1.*1 = key <$> values.
Proof.
  induction 1 as [|v values [k Hk] _ (IH1 & IH2 & IH3)]; [done|]. cbn.
  rewrite Hk. cbn. by rewrite IH1, IH2, IH3.
Qed.

Lemma issued_adds_threw values :
  (issued_adds key values).2 = true ->
  ~ Forall (fun v => is_Some (key v)) values.
Proof.
  intros Hthrew Hall. apply issued_adds_complete in Hall as [Hno _].
  congruence.
Qed.

Lemma issued_adds_stop before bad after :
  Forall (fun v => is_Some (key v)) before -> key bad = None ->
  issued_adds key (before ++ bad :: after)
  = ((issued_adds key before).1, true).
Proof.
  intros Hbefore Hbad. induction Hbefore as [|v before [k Hk] _ IH]; cbn.
  - by rewrite Hbad.
  - by rewrite Hk, IH.
Qed.

Lemma run_adds_Some adds store store' :
  run_adds adds store = Some store' ->
  map_to_list store' ≡ₚ adds ++ map_to_list store
  /\ NoDup adds.*1.
Proof.
  revert store. induction adds as [|[k v] adds IH]; intros store; cbn.
  - intros [= ->]. split; [done|constructor].
  - destruct (store !! k) eqn:Hk; [discriminate|]. intros Hrun.
    apply IH in Hrun as [Hperm Hnd]. split.
    + rewrite Hperm, map_to_list_insert by done.
      by rewrite Permutation_middle.
    + constructor; [|done]. intros Hin.
      apply list_elem_of_fmap in Hin as ([k' v'] & -> & Hin).
      assert (Hin' : (k', v') ∈ map_to_list store').
      { rewrite Hperm. apply elem_of_app. by left. }
      assert (Hfirst : (k', v) ∈ map_to_list store').
      { rewrite Hperm. apply elem_of_app. right.
        apply elem_of_map_to_list, lookup_insert_eq. }
      apply elem_of_map_to_list in Hin', Hfirst.
      cbn in Hfirst. rewrite Hin' in Hfirst. injection Hfirst as ->.
      clear -Hperm Hin Hk.
      pose proof (NoDup_fst_map_to_list store') as Hnd.
      rewrite Hperm, fmap_app in Hnd. apply NoDup_app in Hnd as (_ & Hdis & _).
      eapply (Hdis k').
      * apply list_elem_of_fmap. by exists (k', v).
      * apply list_elem_of_fmap. exists (k', v). split; [done|].
        apply elem_of_map_to_list, lookup_insert_eq.
Qed.

Lemma run_adds_fresh adds store :
  NoDup adds.*1 -> Forall (fun k => store !! k = None) adds.*1 ->
  is_Some (run_adds adds store).
Proof.
  revert store. induction adds as [|[k v] adds IH]; intros store Hnd Hfree; cbn.
  - by eexists.
  - rewrite fmap_cons in Hnd, Hfree. cbn in Hnd, Hfree.
    apply NoDup_cons in Hnd as [Hk Hnd].
    apply Forall_cons in Hfree as [Hfree1 Hfree].
    rewrite Hfree1. apply IH; [done|].
    apply Forall_forall. intros k' Hk'.
    rewrite lookup_insert_ne by (intros ->; done).
    by eapply Forall_forall in Hfree.
Qed.

(** A replacement resolves exactly when no transaction error occurs and
    the values carry pairwise distinct keys, none missing. *)
Lemma replace_store_resolves ev values :
  (replace_store ev key values).1 = Resolved ()
  <-> transaction_error ev = false
      /\ Forall (fun v => is_Some (key v)) values
      /\ NoDup (key <$> values).
Proof.
  unfold replace_store. split.
  - destruct (run_adds _ ∅) as [store|] eqn:Hrun;
      [|by destruct (issued_adds key values).2].
    destruct (transaction_error ev);
      [by destruct (issued_adds key values).2|].
    destruct (issued_adds key values).2 eqn:Hthrew; [done|]. intros _.
    assert (Hall : Forall (fun v => is_Some (key v)) values).
    { clear Hrun. revert Hthrew. induction values as [|v values IH]; cbn;
        [constructor|].
      destruct (key v) as [k|] eqn:Hk; [|done]. cbn. intros Hrest.
      constructor; [by eexists|by apply IH]. }
    split; [done|]. split; [done|].
    apply issued_adds_complete in Hall as (_ & _ & <-).
    apply run_adds_Some in Hrun as [_ Hnd].
    by apply (NoDup_fmap_2 Some).
  - intros (-> & Hall & Hnd).
    pose proof (issued_adds_complete values Hall) as (Hno & _ & Hkeys).
    rewrite <- Hkeys in Hnd. apply (NoDup_fmap_1 Some) in Hnd.
    destruct (run_adds_fresh (issued_adds key values).1 ∅ Hnd) as [store ->].
    + apply Forall_forall. intros k _. apply lookup_empty.
    + by rewrite Hno.
Qed.

(** What a resolved replacement leaves in the store. *)
Lemma replace_store_content ev values r :
  replace_store ev key values = (Resolved (), r) ->
  exists store, r = Some store
    /\ (getAll_entries store).*2 ≡ₚ values
    /\ Forall (fun kv => key kv.2 = Some kv.1) (getAll_entries store)
    /\ Sorted String.le (getAll_entries store).*1.
Proof.
  intros Hr.
  assert (Hres : (replace_store ev key values).1 = Resolved ())
    by (by rewrite Hr).
  apply replace_store_resolves in Hres as (Htx & Hall & _).
  pose proof (issued_adds_complete values Hall) as (Hno & Hvals & _).
  revert Hr. unfold replace_store. rewrite Htx, Hno.
  destruct (run_adds _ ∅) as [store|] eqn:Hrun; [|discriminate].
  intros [= <-]. exists store. split; [done|].
  apply run_adds_Some in Hrun as [Hperm _].
  rewrite map_to_list_empty, app_nil_r in Hperm.
  assert (Hentries : getAll_entries store ≡ₚ (issued_adds key values).1).
  { unfold getAll_entries. by rewrite merge_sort_Permutation. }
  split; [by rewrite Hentries, Hvals|]. split.
  - rewrite Hentries. apply issued_adds_keys.
  - unfold getAll_entries.
    apply (Sorted_fmap fst key_le String.le); [done|].
    apply Sorted_merge_sort. intros x y. unfold key_le. apply total, _.
Qed.
End StoreFacts.

Lemma sorted_by_id (entries : list (string * Article)) :
  Forall (fun kv => art_id kv.2 = Some kv.1) entries ->
  Sorted String.le entries.*1 -> Sorted id_le entries.*2.
Proof.
  induction 1 as [|[k a] entries Hk Hall IH]; [constructor|].
  rewrite !fmap_cons. cbn in *. intros Hsorted.
  apply Sorted_inv in Hsorted as [Hsorted Hhd].
  constructor; [by apply IH|].
  destruct Hall as [|[k' a'] entries' Hk' _]; [constructor|].
  cbn in Hhd, Hk' |- *. apply HdRel_inv in Hhd.
  constructor. unfold id_le. by rewrite Hk, Hk'.
Qed.

Section StoreProperties.
Context {num : Type} `{JsNumber num}.
Implicit Types (ev : StorageEvents) (storage : option (Database num))
  (arts : list Article).

(** X11.  [saveArticles] resolves exactly when the database opens, the
    transaction does not fail, every article has an id and no two articles
    share one. *)
Theorem saveArticles_resolves_iff ev arts storage :
  (saveArticles ev arts storage).1 = Resolved ()
  <-> open_error ev = false /\ transaction_error ev = false
      /\ Forall (fun a => is_Some (art_id a)) arts
      /\ NoDup (art_id <$> arts).
Proof.
  unfold saveArticles, initDB.
  destruct (open_error ev); cbn [fst]; [split; [done|by intros [? _]]|].
  rewrite replace_store_resolves. tauto.
Qed.

(** X12.  After a [saveArticles] that resolved, [getArticles] reads back
    exactly the saved articles, whatever the store held before, in ascending
    order of their ids (which need not be the order they were saved in). *)
Theorem articles_round_trip ev ev' arts storage storage' :
  saveArticles ev arts storage = (Resolved (), storage') ->
  open_error ev' = false -> request_error ev' = false ->
  exists got, (getArticles ev' storage').1 = Resolved got
              /\ got ≡ₚ arts /\ Sorted id_le got.
Proof.
  unfold saveArticles, getArticles, initDB.
  destruct (open_error ev); [discriminate|].
  destruct (replace_store ev art_id arts) as [p r] eqn:Hr. cbn [fst snd].
  intros [= -> <-] -> ->.
  apply replace_store_content in Hr as (store & -> & Hperm & Hkeys & Hsorted).
  cbn. eexists. split; [done|]. split; [done|].
  by apply sorted_by_id.
Qed.

(** X13.  A [saveArticles] that rejects although every article has an id
    (two articles share an id, or the storage layer failed) is rolled back:
    [getArticles] reads afterwards what it read before. *)
Theorem saveArticles_rolled_back ev ev' arts storage reason :
  Forall (fun a => is_Some (art_id a)) arts ->
  (saveArticles ev arts storage).1 = Rejected reason ->
  (getArticles ev' (saveArticles ev arts storage).2).1
  = (getArticles ev' storage).1.
Proof.
  intros Hall. unfold saveArticles, getArticles, initDB.
  destruct (open_error ev); [done|]. cbn [fst snd].
  unfold replace_store.
  destruct (issued_adds_complete art_id arts Hall) as (-> & _ & _).
  destruct (run_adds _ ∅) as [store|]; cbn [fst snd].
  - destruct (transaction_error ev); cbn [fst snd]; [|discriminate].
    intros _. by destruct (open_error ev'), (request_error ev'), storage.
  - intros _. by destruct (open_error ev'), (request_error ev'), storage.
Qed.

(** X14.  An article without an id makes [saveArticles] reject without
    rolling back: the previous content of the store is gone and the store
    holds the articles that came before the one without id. *)
Theorem saveArticles_missing_id ev ev' (before after : list Article)
    (bad : Article) storage :
  open_error ev = false -> transaction_error ev = false ->
  open_error ev' = false -> request_error ev' = false ->
  Forall (fun a => is_Some (art_id a)) before ->
  NoDup (art_id <$> before) ->
  art_id bad = None ->
  (exists reason,
      (saveArticles ev (before ++ bad :: after) storage).1 = Rejected reason)
  /\ exists got,
       (getArticles ev' (saveArticles ev (before ++ bad :: after) storage).2).1
       = Resolved got
       /\ got ≡ₚ before.
Proof.
  intros Hopen Htx Hopen' Hreq Hbefore Hnd Hbad.
  assert (Hok : replace_store ev art_id before
                = (Resolved (), (replace_store ev art_id before).2)).
  { assert (Hres : (replace_store ev art_id before).1 = Resolved ())
      by (by apply replace_store_resolves).
    by destruct (replace_store ev art_id before) as [p r]; cbn in *; subst. }
  pose proof (replace_store_content art_id ev before _ Hok)
    as (store & Hstore & Hperm & _).
  unfold saveArticles, getArticles, initDB. rewrite Hopen, Hopen', Hreq.
  cbn [fst snd].
  revert Hstore. unfold replace_store.
  rewrite (issued_adds_stop art_id before bad after Hbefore Hbad).
  destruct (issued_adds_complete art_id before Hbefore) as (-> & _ & _).
  cbn [fst snd]. rewrite Htx.
  destruct (run_adds _ ∅) as [store'|]; cbn [fst snd]; [|discriminate].
  intros [= ->]. split; [by eexists|]. eexists. split; [done|]. exact Hperm.
Qed.

(** X15.  The aggregates that [calculatePayouts] computes over articles
    that all name an author can always be stored: [savePayouts] resolves
    whenever the storage layer does not fail, and [getPayouts] reads the
    same aggregates back (by ascending author, not in first-occurrence
    order). *)
Theorem payouts_round_trip ev ev' (st : PayoutState num) arts storage :
  open_error ev = false -> transaction_error ev = false ->
  open_error ev' = false -> request_error ev' = false ->
  Forall (fun a => is_Some (art_author a)) arts ->
  (savePayouts ev (authorPayouts (calculatePayouts st arts)) storage).1
  = Resolved ()
  /\ exists got,
       (getPayouts ev'
          (savePayouts ev (authorPayouts (calculatePayouts st arts)) storage).2).1
       = Resolved got
       /\ got ≡ₚ authorPayouts (calculatePayouts st arts).
Proof.
  intros Hopen Htx Hopen' Hreq Hauthors.
  set (payouts := authorPayouts (calculatePayouts st arts)).
  assert (Hkeys : ap_author <$> payouts
                  = first_occurrence_order (art_author <$> arts)).
  { unfold payouts. rewrite calculatePayouts_aggregates, <- list_fmap_compose.
    apply list_fmap_id. }
  assert (Hres : (replace_store ev ap_author payouts).1 = Resolved ()).
  { apply replace_store_resolves. split; [done|]. split.
    - apply Forall_forall. intros p Hp.
      apply (list_elem_of_fmap_2 ap_author) in Hp. rewrite Hkeys in Hp.
      apply elem_of_first_occurrence_order, list_elem_of_fmap in Hp
        as (a & -> & Ha).
      by eapply Forall_forall in Hauthors.
    - rewrite Hkeys. apply NoDup_first_occurrence_order. }
  assert (Hok : replace_store ev ap_author payouts
                = (Resolved (), (replace_store ev ap_author payouts).2)).
  { by destruct (replace_store ev ap_author payouts) as [p r]; cbn in *; subst. }
  pose proof (replace_store_content ap_author ev payouts _ Hok)
    as (store & Hstore & Hperm & _).
  unfold savePayouts, getPayouts, initDB. rewrite Hopen, Hopen', Hreq.
  cbn [fst snd]. rewrite Hres, Hstore. cbn.
  split; [done|]. eexists. split; [done|]. exact Hperm.
Qed.

(** X16.  After a [clearDatabase] that resolved the three stores read as
    empty: no articles, no payouts, no rate record. *)
Theorem clearDatabase_empties ev ev' storage storage' :
  clearDatabase ev storage = (Resolved (), storage') ->
  open_error ev' = false -> request_error ev' = false ->
  (getArticles ev' storage').1 = Resolved []
  /\ (getPayouts ev' storage').1 = Resolved []
  /\ (getPayoutRates ev' storage').1 = Resolved None.
Proof.
  unfold clearDatabase, getArticles, getPayouts, getPayoutRates, initDB.
  destruct (open_error ev); [discriminate|].
  destruct (transaction_error ev); [discriminate|].
  intros [= <-] -> ->. cbn. unfold getAll, getAll_entries.
  by rewrite map_to_list_empty.
Qed.

(** X17.  [savePayoutRates] never changes what [getArticles] and
    [getPayouts] read, and when it rejects it does not change what
    [getPayoutRates] reads either. *)
Theorem savePayoutRates_frame ev ev' (r : PayoutRate num) storage :
  (getArticles ev' (savePayoutRates ev r storage).2).1
  = (getArticles ev' storage).1
  /\ (getPayouts ev' (savePayoutRates ev r storage).2).1
     = (getPayouts ev' storage).1
  /\ (forall reason,
        (savePayoutRates ev r storage).1 = Rejected reason ->
        (getPayoutRates ev' (savePayoutRates ev r storage).2).1
        = (getPayoutRates ev' storage).1).
Proof.
  unfold savePayoutRates, getArticles, getPayouts, getPayoutRates, initDB.
  destruct (open_error ev); [done|].
  destruct (transaction_error ev); cbn [fst snd].
  - by destruct (open_error ev'), (request_error ev'), storage.
  - split; [by destruct (open_error ev'), (request_error ev'), storage|].
    split; [by destruct (open_error ev'), (request_error ev'), storage|].
    by intros reason.
Qed.
End StoreProperties.

(** ** Server route *)

Lemma str_or_nonempty (value : option string) (fallback : string) :
  fallback <> "" -> str_or value fallback <> "".
Proof.
  intros Hf. unfold str_or. destruct value as [v|]; [|done]. cbn.
  case_bool_decide; [done|]. cbn. done.
Qed.

Lemma append_nonempty (s1 s2 : string) : s2 <> "" -> String.append s1 s2 <> "".
Proof. by destruct s1. Qed.

Lemma route_article_well_formed type now nowIso index (article : RawArticle) :
  well_formed_article (route_article type now nowIso index article).
Proof.
  split; [|split; [|split]].
  - eexists. split; [done|]. cbn [str_concat fold_right].
    by apply append_nonempty.
  - eexists. split; [done|]. by apply str_or_nonempty.
  - eexists. split; [done|]. by apply str_or_nonempty.
  - cbn. case_bool_decide; auto.
Qed.

Lemma keeps_valid_articles st (arts : list Article) :
  Forall valid_article arts ->
  articles (fetchNewsSuccess st (PayloadArray (JsObject <$> arts))) = arts.
Proof.
  intros Hvalid. apply (inj (fmap JsObject)). rewrite fetchNewsSuccess_articles.
  induction Hvalid as [|a l Ha Hl IH]; [done|].
  rewrite fmap_cons, filter_cons, decide_True by (by apply valid_article_spec).
  by f_equal.
Qed.

(** X18.  When the route answers with articles, there is one per provider
    article, each with a non-empty id, title and author and with type
    ['news'] or ['blog'], whatever the provider left out; the news slice
    accepts all of them. *)
Theorem route_articles_well_formed param_category param_type provider now
    nowIso (arts : list Article) st :
  route_GET param_category param_type provider now nowIso = RouteOk arts ->
  Forall well_formed_article arts
  /\ articles (fetchNewsSuccess st (PayloadArray (JsObject <$> arts))) = arts
  /\ exists raw,
       provider
         (if bool_decide (str_or param_type "headlines" = "headlines")
          then TopHeadlines (str_or param_category "general")
          else Everything
                 (if bool_decide (str_or param_type "headlines" = "blog")
                  then "technology blog" else "technology news"))
       = HttpResponse (Some (Some raw))
       /\ length arts = length raw.
Proof.
  unfold route_GET. cbv zeta.
  assert (Hwf : forall raw, Forall well_formed_article
                  (imap (fun index article =>
                           route_article (str_or param_type "headlines")
                             (now index) (nowIso index) index article) raw)).
  { intros raw. apply Forall_forall. intros a Ha.
    apply elem_of_lookup_imap in Ha as (i & x & -> & _).
    apply route_article_well_formed. }
  destruct (bool_decide (str_or param_type "headlines" = "headlines"));
    match goal with
    | |- context [provider ?request] =>
        destruct (provider request) as [e|[[raw|]|]] eqn:Hresp
    end; try discriminate;
    intros [= <-];
    (split; [apply Hwf|]);
    (split;
     [apply keeps_valid_articles; eapply Forall_impl; [apply Hwf|];
      by intros a [Ha _]
     |exists raw; split; [done|apply length_imap]]).
Qed.

(** X19.  The client asks the route for type ['mixed'].  The route types
    the articles of every request other than ['headlines'] as ['blog'], so
    every article that the mediated fetch resolves to is typed ['blog']. *)
Theorem mediated_articles_are_blogs (w : World) provider now nowIso
    (arts : list Article) :
  fetchFromServerRoute (served_by_route w provider now nowIso) "mixed"
  = Resolved arts ->
  Forall (fun a => art_type a = Some "blog") arts
  /\ exists raw, provider (Everything "technology news")
                 = HttpResponse (Some (Some raw)).
Proof.
  unfold fetchFromServerRoute, served_by_route. cbn [get_api_news].
  unfold route_GET. cbv zeta.
  change (str_or (Some "mixed") "headlines") with "mixed".
  rewrite (bool_decide_eq_false_2 ("mixed" = "headlines")) by done.
  rewrite (bool_decide_eq_false_2 ("mixed" = "blog")) by done.
  destruct (provider (Everything "technology news")) as [e|[[raw|]|]] eqn:Hresp;
    cbn [route_to_client]; try discriminate.
  cbn [route_status route_articles].
  rewrite (bool_decide_eq_true_2 ("ok" = "ok")) by done. cbn [negb].
  intros [= <-]. split; [|by eexists].
  apply Forall_forall. intros a Ha.
  apply elem_of_lookup_imap in Ha as (i & x & -> & _).
  cbn [route_article art_type].
  by rewrite (bool_decide_eq_false_2 ("mixed" = "headlines")).
Qed.

(** ** Connectivity probe *)

(** X20.  [isOnline] never reports a connection that the browser denies:
    it answers true only with a navigator that is on line, and then
    neither of the local-storage switches that it can read is set against
    it. *)
Theorem isOnline_sound (env : BrowserEnv) :
  isOnline env = true ->
  has_navigator env = true /\ navigator_onLine env = true
  /\ (has_window env = true ->
      forall items, localStorage env = Some items ->
        items !! "force_offline" <> Some "true"
        /\ (NODE_ENV env = "development" ->
            items !! "force_mock_data" <> Some "true")).
Proof.
  unfold isOnline. destruct (has_navigator env); [|discriminate]. cbn.
  destruct (has_window env); cbn.
  - destruct (localStorage env) as [items|]; [|by intros ->].
    destruct (bool_decide (NODE_ENV env = "development")) eqn:Hdev; cbn.
    + destruct (bool_decide (items !! "force_mock_data" = Some "true")) eqn:Hmock;
        [discriminate|].
      intros [-> Hoff%negb_true_iff]%andb_true_iff.
      split; [done|]. split; [done|]. intros _ items' [= <-].
      apply bool_decide_eq_false in Hoff, Hmock. done.
    + intros [-> Hoff%negb_true_iff]%andb_true_iff.
      split; [done|]. split; [done|]. intros _ items' [= <-].
      apply bool_decide_eq_false in Hoff, Hdev. done.
  - intros ->. done.
Qed.

(** ** Article source chain: what is returned and what is written *)

Lemma nonempty_positive_length {X : Type} (xs : list X) :
  xs <> [] -> (0 <? length xs)%nat = true.
Proof. by destruct xs. Qed.

Lemma try_direct_api_articles (w : World) :
  try_direct_api w
  = if (0 <? length (direct_articles w))%nat then
      match save_after_direct w with
      | Rejected _ => None
      | Resolved _ => Some (Resolved (direct_articles w), Some (direct_articles w))
      end
    else None.
Proof.
  unfold try_direct_api, direct_articles. cbv zeta.
  destruct (fetchFromNewsAPI w "technology" None),
           (fetchFromNewsAPI w "business" None);
    cbn [app]; rewrite ?app_nil_r; done.
Qed.

Lemma issued_adds_values {V : Type} (key : V -> option string)
    (values : list V) (kv : string * V) :
  kv ∈ (issued_adds key values).1 -> kv.2 ∈ values.
Proof.
  induction values as [|v values IH]; cbn; [by intros ?%elem_of_nil|].
  destruct (key v) as [k|]; cbn; [|by intros ?%elem_of_nil].
  intros [->|Hin]%elem_of_cons; [apply list_elem_of_here|].
  apply list_elem_of_further. by apply IH.
Qed.

(** A replacement leaves nothing in the store but values it was given,
    whether it resolves or not. *)
Lemma replace_store_values {V : Type} (key : V -> option string)
    (ev : StorageEvents) (values : list V) (store : gmap string V) (v : V) :
  (replace_store ev key values).2 = Some store ->
  v ∈ getAll store -> v ∈ values.
Proof.
  unfold replace_store.
  destruct (run_adds _ ∅) as [store'|] eqn:Hrun; [|discriminate].
  destruct (transaction_error ev); [discriminate|]. cbn [snd]. intros [= ->].
  apply run_adds_Some in Hrun as [Hperm _].
  rewrite map_to_list_empty, app_nil_r in Hperm.
  unfold getAll, getAll_entries. rewrite merge_sort_Permutation, Hperm.
  intros (kv & -> & Hin)%list_elem_of_fmap. by eapply issued_adds_values.
Qed.

(** What [getArticles] reads after a [saveArticles], whatever its outcome:
    articles that were to be saved or that were there before; after a save
    that resolved, the saved articles. *)
Lemma saveArticles_reads {num : Type} (ev ev' : StorageEvents)
    (arts : list Article) (storage : option (Database num))
    (before after : list Article) :
  (getArticles ev' storage).1 = Resolved before ->
  (getArticles ev' (saveArticles ev arts storage).2).1 = Resolved after ->
  (forall a, a ∈ after -> a ∈ arts \/ a ∈ before)
  /\ ((saveArticles ev arts storage).1 = Resolved () -> after ≡ₚ arts).
Proof.
  unfold saveArticles, getArticles, initDB.
  destruct (open_error ev'); [discriminate|].
  destruct (request_error ev'); [discriminate|].
  destruct (open_error ev).
  { cbn. intros [= <-] [= <-]. split; [by right|discriminate]. }
  destruct (replace_store ev art_id arts) as [r [store|]] eqn:Hr;
    cbn [fst snd store_articles].
  - intros _ [= <-]. split.
    + intros a Ha. left.
      eapply (replace_store_values art_id ev arts store); [by rewrite Hr|done].
    + intros ->. by apply replace_store_content in Hr as (? & [= <-] & ? & _).
  - intros [= <-] [= <-]. split; [by right|].
    intros ->. by apply replace_store_content in Hr as (? & ? & _).
Qed.

Lemma getArticles_resolves {num : Type} (ev' : StorageEvents)
    (storage storage' : option (Database num)) (before : list Article) :
  (getArticles ev' storage).1 = Resolved before ->
  exists got, (getArticles ev' storage').1 = Resolved got.
Proof.
  unfold getArticles, initDB.
  destruct (open_error ev'); [discriminate|].
  destruct (request_error ev'); [discriminate|]. by eexists.
Qed.

(** X21.  On the cache store as it is implemented, a run of
    [fetchAllArticles] leaves in the cache only articles that were there
    before or that one of the two network fetches delivered: articles read
    from the cache are not written back and synthetic articles are never
    stored.  When a cache write of the run resolved, the cache holds
    exactly the collection that the run returns. *)
Theorem cache_holds_network_articles {num : Type} (ev ev' : StorageEvents)
    (w : World) (storage : option (Database num))
    (before after : list Article) :
  (getArticles ev' storage).1 = Resolved before ->
  (getArticles ev' (storage_after_fetch ev w storage)).1 = Resolved after ->
  (forall a, a ∈ after ->
     a ∈ before
     \/ (exists mediated,
           fetchFromServerRoute w "mixed" = Resolved mediated /\ a ∈ mediated)
     \/ a ∈ direct_articles w)
  /\ (forall written,
        (fetchAllArticles (on_storage ev w storage)).2 = Some written ->
        (fetchAllArticles (on_storage ev w storage)).1 = Resolved written
        /\ after ≡ₚ written).
Proof.
  intros Hbefore.
  destruct (getArticles_resolves ev' storage
              (storage_after_route ev w storage).2 before Hbefore)
    as [middle Hmiddle].
  (* the cache after the mediated step *)
  assert (Hroute :
    (forall a, a ∈ middle ->
       a ∈ before
       \/ exists mediated,
            fetchFromServerRoute w "mixed" = Resolved mediated /\ a ∈ mediated)
    /\ (forall r, try_server_route (on_storage ev w storage) = Some r ->
          forall written, r.2 = Some written ->
            r.1 = Resolved written /\ middle ≡ₚ written)).
  { revert Hmiddle. unfold try_server_route, storage_after_route.
    change (fetchFromServerRoute (on_storage ev w storage) "mixed")
      with (fetchFromServerRoute w "mixed").
    change (browser (on_storage ev w storage)) with (browser w).
    change (save_after_route (on_storage ev w storage))
      with (storage_after_route ev w storage).1.
    unfold storage_after_route.
    destruct (fetchFromServerRoute w "mixed") as [arts|e].
    - destruct (0 <? length arts)%nat; cbn [andb].
      + destruct (isOnline (browser w)).
        * intros Hread.
          destruct (saveArticles_reads ev ev' arts storage before middle
                      Hbefore Hread) as [Hsub Hsaved].
          split.
          -- intros a Ha. destruct (Hsub a Ha); [right; by exists arts|by left].
          -- destruct (saveArticles ev arts storage).1 as [[]|]; [|done].
             intros r [= <-] written [= <-]. split; [done|by apply Hsaved].
        * cbn [snd]. rewrite Hbefore. intros [= <-]. split; [by left|].
          by intros r [= <-] written.
      + cbn [snd]. rewrite Hbefore. intros [= <-]. split; [by left|done].
    - cbn [snd]. rewrite Hbefore. intros [= <-]. split; [by left|done]. }
  destruct Hroute as [Hsub1 Hret1].
  unfold storage_after_fetch, fetchAllArticles. cbn [useMockData].
  destruct (try_server_route (on_storage ev w storage)) as [r|] eqn:Htry.
  { rewrite Hmiddle. intros [= <-]. split.
    - intros a Ha. destruct (Hsub1 a Ha) as [?|?]; [by left|right; by left].
    - intros written. by apply Hret1. }
  rewrite try_direct_api_articles.
  change (direct_articles (on_storage ev w storage)) with (direct_articles w).
  change (save_after_direct (on_storage ev w storage))
    with (storage_after_direct ev w storage).1.
  unfold storage_after_direct, try_offline_storage.
  destruct (0 <? length (direct_articles w))%nat.
  - intros Hread.
    destruct (saveArticles_reads ev ev' (direct_articles w)
                (storage_after_route ev w storage).2 middle after
                Hmiddle Hread) as [Hsub Hsaved].
    split.
    + intros a Ha. destruct (Hsub a Ha) as [?|Hm]; [right; by right|].
      destruct (Hsub1 a Hm) as [?|?]; [by left|right; by left].
    + destruct (saveArticles ev (direct_articles w) _).1 as [[]|].
      * intros written [= <-]. split; [done|by apply Hsaved].
      * intros written.
        destruct (cache_read _) as [c|]; [|done].
        by destruct (0 <? length c)%nat.
  - cbn [snd]. rewrite Hmiddle. intros [= <-]. split.
    + intros a Ha. destruct (Hsub1 a Ha) as [?|?]; [by left|right; by left].
    + intros written.
      destruct (cache_read _) as [c|]; [|done].
      by destruct (0 <? length c)%nat.
Qed.

(** X22.  A non-empty mediated fetch decides the result, whatever the
    other sources would give, provided the cache write does not fail: the
    articles are returned, and written to the cache exactly when
    [isOnline] holds. *)
Theorem mediated_fetch_wins (w : World) (arts : list Article) :
  fetchFromServerRoute w "mixed" = Resolved arts -> arts <> [] ->
  (isOnline (browser w) = true -> save_after_route w = Resolved ()) ->
  fetchAllArticles w
  = (Resolved arts, if isOnline (browser w) then Some arts else None).
Proof.
  intros Hroute Hne Hsave. unfold fetchAllArticles, try_server_route.
  cbn [useMockData]. rewrite Hroute, (nonempty_positive_length _ Hne).
  destruct (isOnline (browser w)); [|done]. by rewrite Hsave.
Qed.

(** X23.  When the cache write after a successful mediated fetch fails,
    the fetched articles are given up: [fetchAllArticles] goes on exactly
    as if the mediated fetch had failed. *)
Theorem failed_cache_write_discards_fetch (w : World) (arts : list Article)
    (reason : string) :
  fetchFromServerRoute w "mixed" = Resolved arts -> arts <> [] ->
  isOnline (browser w) = true -> save_after_route w = Rejected reason ->
  fetchAllArticles w = fetchAllArticles (with_route_down w).
Proof.
  intros Hroute Hne Hon Hsave. unfold fetchAllArticles, try_server_route.
  cbn [useMockData]. rewrite Hroute, (nonempty_positive_length _ Hne), Hon, Hsave.
  done.
Qed.

(** X24.  When the mediated fetch yields nothing, a non-empty direct fetch
    decides the result if its cache write goes through: the technology
    articles followed by the business articles, a rejected branch
    contributing none.  This path writes to the cache without consulting
    [isOnline]. *)
Theorem direct_fetch_result (w : World) :
  try_server_route w = None -> direct_articles w <> [] ->
  save_after_direct w = Resolved () ->
  fetchAllArticles w
  = (Resolved (direct_articles w), Some (direct_articles w)).
Proof.
  intros Hroute Hne Hsave. unfold fetchAllArticles. cbn [useMockData].
  rewrite Hroute, try_direct_api_articles.
  by rewrite (nonempty_positive_length _ Hne), Hsave.
Qed.

(** X25.  Without an API key no provider request is made: when the
    mediated fetch yields nothing the result is the cached collection if
    there is a non-empty one and the synthetic collection otherwise, and
    nothing is written. *)
Theorem no_api_key_no_direct_fetch (w : World) :
  NEWS_API_KEY w = "" -> try_server_route w = None ->
  fetchAllArticles w
  = (Resolved
       match cache_read w with
       | Resolved cached =>
           if (0 <? length cached)%nat then cached else getMockArticles w
       | Rejected _ => getMockArticles w
       end, None).
Proof.
  intros Hkey Hroute. unfold fetchAllArticles. cbn [useMockData].
  rewrite Hroute, try_direct_api_articles.
  unfold direct_articles, fetchFromNewsAPI. rewrite Hkey.
  rewrite (bool_decide_eq_true_2 ("" = "")) by done. cbn [app length].
  change (0 <? 0)%nat with false. cbv iota.
  unfold try_offline_storage. destruct (cache_read w) as [c|]; [|done].
  by destruct c.
Qed.

Lemma well_formed_articleb_spec (a : Article) :
  well_formed_articleb a = true -> well_formed_article a.
Proof.
  unfold well_formed_articleb, well_formed_article, valid_article, str_truthy.
  rewrite !andb_true_iff, orb_true_iff, !bool_decide_eq_true.
  intros [[[Hid Ht] Hau] Hty].
  destruct (art_id a) as [i|], (art_title a) as [t|], (art_author a) as [au|];
    try discriminate.
  apply negb_true_iff, bool_decide_eq_false in Hid, Ht, Hau.
  repeat split; eauto.
Qed.

Lemma forallb_Forall {X : Type} (f : X -> bool) (xs : list X) :
  forallb f xs = true -> Forall (fun x => f x = true) xs.
Proof.
  induction xs as [|x xs IH]; [constructor|]. cbn.
  intros [Hx Hxs]%andb_true_iff. constructor; [done|by apply IH].
Qed.

(** X26.  The synthetic collection is well formed whatever the random
    numbers and the clock: twenty articles, each with a non-empty id, title
    and author and with type ['news'] or ['blog'] (thirteen and seven), the
    ids pairwise distinct; the news slice accepts all twenty. *)
Theorem synthetic_articles_well_formed (w : World) st :
  length (getMockArticles w) = 20
  /\ Forall well_formed_article (getMockArticles w)
  /\ NoDup (art_id <$> getMockArticles w)
  /\ length (filter (fun a => art_type a = Some "news") (getMockArticles w)) = 13
  /\ length (filter (fun a => art_type a = Some "blog") (getMockArticles w)) = 7
  /\ articles (fetchNewsSuccess st (PayloadArray (JsObject <$> getMockArticles w)))
     = getMockArticles w.
Proof.
  assert (Hwf : Forall well_formed_article (getMockArticles w)).
  { eapply Forall_impl; [|apply well_formed_articleb_spec].
    apply forallb_Forall. vm_compute. reflexivity. }
  split; [apply getMockArticles_length|]. split; [done|]. split.
  - assert (Hids : art_id <$> getMockArticles w
                   = (fun i => Some (String.append "mock-" (pretty (i + 1)%nat)))
                     <$> seq 0 20)
      by (unfold getMockArticles; by rewrite <- list_fmap_compose).
    rewrite Hids. apply (bool_decide_unpack _). vm_compute. exact I.
  - split; [|split].
    + vm_compute. reflexivity.
    + vm_compute. reflexivity.
    + apply keeps_valid_articles. eapply Forall_impl; [exact Hwf|].
      by intros a [Ha _].
Qed.

Lemma getAll_empty {V : Type} : getAll (∅ : gmap string V) = [].
Proof. unfold getAll, getAll_entries. by rewrite map_to_list_empty. Qed.

(** X27.  On the cache store as it is implemented, a direct fetch whose
    first article has no id cannot succeed: the write rejects after having
    cleared the store, so with the mediated fetch down [fetchAllArticles]
    returns the synthetic collection and leaves the cache empty, whatever
    the provider sent and whatever the cache held. *)
Theorem direct_fetch_without_ids_wipes_cache {num : Type} (ev : StorageEvents)
    (w : World) (storage : option (Database num)) (first : Article)
    (rest : list Article) (e : string) :
  open_error ev = false -> transaction_error ev = false ->
  request_error ev = false ->
  get_api_news w "mixed" = HttpFailure e ->
  direct_articles w = first :: rest -> art_id first = None ->
  fetchAllArticles (on_storage ev w storage) = (Resolved (getMockArticles w), None)
  /\ (getArticles ev (storage_after_direct ev w storage).2).1 = Resolved [].
Proof.
  intros Hopen Htx Hreq Hroute Hdirect Hid.
  assert (Hafter : storage_after_route ev w storage = (Resolved (), storage)).
  { unfold storage_after_route, fetchFromServerRoute. by rewrite Hroute. }
  assert (Hsave : exists db,
            storage_after_direct ev w storage = (Rejected "DataError", Some db)
            /\ store_articles db = ∅).
  { unfold storage_after_direct. rewrite Hdirect, Hafter. cbn [length fst snd].
    change (0 <? S (length rest))%nat with true. cbv iota.
    unfold saveArticles, initDB. rewrite Hopen.
    unfold replace_store. cbn [issued_adds]. rewrite Hid.
    cbn [fst snd run_adds]. rewrite Htx. cbn [fst snd]. by eexists. }
  destruct Hsave as (db & Hsave & Hempty).
  assert (Hread : (getArticles ev (storage_after_direct ev w storage).2).1
                  = Resolved []).
  { rewrite Hsave. unfold getArticles, initDB. rewrite Hopen, Hreq.
    cbn [fst snd]. by rewrite Hempty, getAll_empty. }
  split; [|done].
  unfold fetchAllArticles. cbn [useMockData].
  assert (H1 : try_server_route (on_storage ev w storage) = None).
  { unfold try_server_route, fetchFromServerRoute. cbn [on_storage get_api_news].
    by rewrite Hroute. }
  assert (H2 : try_direct_api (on_storage ev w storage) = None).
  { rewrite try_direct_api_articles.
    change (direct_articles (on_storage ev w storage)) with (direct_articles w).
    rewrite Hdirect. cbn [length]. change (0 <? S (length rest))%nat with true.
    cbv iota. cbn [on_storage save_after_direct]. by rewrite Hsave. }
  assert (H3 : try_offline_storage (on_storage ev w storage) = None).
  { unfold try_offline_storage. cbn [on_storage cache_read]. by rewrite Hread. }
  by rewrite H1, H2, H3.
Qed.

(** ** Article grid and pager *)

Lemma take_min {X : Type} (n : nat) (xs : list X) :
  take (n `min` length xs) xs = take n xs.
Proof.
  destruct (decide (n ≤ length xs)%nat).
  - by rewrite Nat.min_l.
  - rewrite Nat.min_r, !take_ge by lia. done.
Qed.

Lemma page_as_chunk (arts : list Article) (i : nat) :
  currentArticles arts (1 + Z.of_nat i) = take 9 (drop (9 * i) arts).
Proof.
  unfold currentArticles, js_slice, itemsPerPage. cbv zeta.
  rewrite !(proj2 (Z.ltb_ge _ 0)) by lia.
  destruct (decide (9 * i ≤ length arts)%nat) as [Hle|Hgt].
  - replace (Z.to_nat
               (((1 + Z.of_nat i) * 9) `min` Z.of_nat (length arts) -
                ((1 + Z.of_nat i) * 9 - 9) `min` Z.of_nat (length arts)))
      with (9 `min` length (drop (9 * i) arts))%nat
      by (rewrite length_drop; lia).
    replace (Z.to_nat (((1 + Z.of_nat i) * 9 - 9) `min` Z.of_nat (length arts)))
      with (9 * i)%nat by lia.
    apply take_min.
  - rewrite !drop_ge by lia. by rewrite !take_nil.
Qed.

Lemma chunks_concat {X : Type} (xs : list X) (n : nat) :
  mjoin ((fun i => take 9 (drop (9 * i) xs)) <$> seq 0 n) = take (9 * n) xs.
Proof.
  induction n as [|n IH]; [done|].
  rewrite seq_S, fmap_app, join_app, IH. cbn [fmap list_fmap mjoin list_join].
  rewrite app_nil_r, take_take_drop. f_equal. lia.
Qed.

(** X28.  The pages of the grid cut the article list into consecutive
    pieces: pages 1 to [totalPages] put one after the other give back the
    list, each of them shows between one and nine articles, and a page
    number beyond [totalPages] shows none. *)
Theorem grid_pages_partition (arts : list Article) :
  mjoin (currentArticles arts <$> seqZ 1 (totalPages arts)) = arts
  /\ Forall (fun page => (1 <= length (currentArticles arts page) <= 9)%nat)
            (seqZ 1 (totalPages arts))
  /\ (forall page, (totalPages arts < page)%Z -> currentArticles arts page = []).
Proof.
  assert (Htotal : (0 <= totalPages arts)%Z
                   /\ (Z.of_nat (length arts) <= 9 * totalPages arts)%Z
                   /\ (9 * totalPages arts < Z.of_nat (length arts) + 9)%Z).
  { unfold totalPages, itemsPerPage.
    pose proof (Z.div_mod (Z.of_nat (length arts) + 9 - 1) 9 ltac:(lia)).
    pose proof (Z.mod_pos_bound (Z.of_nat (length arts) + 9 - 1) 9 ltac:(lia)).
    lia. }
  destruct Htotal as (Hpos & Hcover & Htight).
  assert (Hpages : seqZ 1 (totalPages arts)
                   = (fun i => (1 + Z.of_nat i)%Z)
                     <$> seq 0 (Z.to_nat (totalPages arts))).
  { unfold seqZ. apply list_fmap_ext. intros _ i _. lia. }
  split; [|split].
  - rewrite Hpages, <- list_fmap_compose.
    rewrite (list_fmap_ext _ (fun i => take 9 (drop (9 * i) arts)) _
               (fun _ i _ => page_as_chunk arts i)).
    rewrite chunks_concat. apply take_ge. lia.
  - rewrite Hpages. apply Forall_fmap, Forall_forall. intros i Hi.
    apply elem_of_seq in Hi. cbn [compose]. rewrite page_as_chunk.
    rewrite length_take, length_drop. lia.
  - intros page Hpage.
    replace page with (1 + Z.of_nat (Z.to_nat (page - 1)))%Z by lia.
    rewrite page_as_chunk, drop_ge by lia. done.
Qed.

(** X29.  For a current page within range the pager shows exactly the first
    page, the last page and the pages next to the current one; it shows a
    gap before the neighbours exactly when the current page is beyond the
    third, and a gap after them exactly when it is more than two before the
    last. *)
Theorem pager_shows_neighbours (currentPage pages : Z) (n : Z) :
  (1 <= currentPage)%Z -> (currentPage <= pages)%Z ->
  (PageNumber n ∈ getPageNumbers currentPage pages
   <-> (1 <= n <= pages)%Z
       /\ (n = 1%Z \/ n = pages \/ (currentPage - 1 <= n <= currentPage + 1)%Z))
  /\ (Ellipsis ∈ getPageNumbers currentPage pages
      <-> (3 < currentPage)%Z \/ (currentPage < pages - 2)%Z).
Proof.
  intros Hlo Hhi. unfold getPageNumbers. cbv zeta.
  set (start := Z.max 2 (currentPage - 1)).
  set (end_ := Z.min (pages - 1) (currentPage + 1)).
  assert (Hnum : forall l, PageNumber n ∈ (l ++ [Ellipsis] : list PageItem)
                           <-> PageNumber n ∈ l).
  { intros l. rewrite elem_of_app, list_elem_of_singleton.
    split; [by intros [?|?]|by left]. }
  assert (Hrange : PageNumber n ∈ PageNumber <$> seqZ start (end_ - start + 1)
                   <-> (start <= n <= end_)%Z).
  { rewrite list_elem_of_fmap. split.
    - intros (m & [= <-] & Hm%elem_of_seqZ). lia.
    - intros Hn. exists n. split; [done|]. apply elem_of_seqZ. lia. }
  assert (Hnogap : Ellipsis ∉ PageNumber <$> seqZ start (end_ - start + 1)).
  { by intros (m & ? & _)%list_elem_of_fmap. }
  assert (Hinj : forall m, PageNumber n = PageNumber m <-> n = m)
    by (intros m; split; [by intros [= ->]|by intros ->]).
  assert (Hne : PageNumber n = Ellipsis <-> False) by done.
  split.
  - destruct (2 <? start)%Z eqn:H1, (end_ <? pages - 1)%Z eqn:H2,
      (1 <? pages)%Z eqn:H3;
      repeat (rewrite ?elem_of_app, ?Hnum, ?Hrange, ?list_elem_of_singleton);
      rewrite ?Hinj, ?Hne;
      try apply Z.ltb_lt in H1; try apply Z.ltb_ge in H1;
      try apply Z.ltb_lt in H2; try apply Z.ltb_ge in H2;
      try apply Z.ltb_lt in H3; try apply Z.ltb_ge in H3;
      unfold start, end_ in *; lia.
  - assert (Hgap : Ellipsis = Ellipsis <-> True) by done.
    assert (Hpage : forall m, Ellipsis = PageNumber m <-> False) by done.
    assert (Hnogap' : Ellipsis ∈ PageNumber <$> seqZ start (end_ - start + 1)
                      <-> False) by done.
    destruct (2 <? start)%Z eqn:H1, (end_ <? pages - 1)%Z eqn:H2,
      (1 <? pages)%Z eqn:H3;
      repeat (rewrite ?elem_of_app, ?list_elem_of_singleton);
      rewrite ?Hgap, ?Hpage, ?Hnogap';
      try apply Z.ltb_lt in H1; try apply Z.ltb_ge in H1;
      try apply Z.ltb_lt in H2; try apply Z.ltb_ge in H2;
      try apply Z.ltb_lt in H3; try apply Z.ltb_ge in H3;
      unfold start, end_ in *;
      first [ split; [intros _; lia|tauto]
            | split; [tauto|intros Hc; exfalso; lia] ].
Qed.

(** ** Dashboard statistics *)

Lemma uniqueAuthors_fold (A : list Article) (acc : gset (option string)) :
  foldl (fun authors article =>
           if str_truthy (art_author article)
           then {[ art_author article ]} ∪ authors else authors)
        acc A
  = list_to_set (filter (fun au => str_truthy au = true) (art_author <$> A))
    ∪ acc.
Proof.
  revert acc. induction A as [|a A IH]; intros acc.
  - cbn. set_solver.
  - cbn [foldl]. rewrite IH, fmap_cons, filter_cons.
    destruct (str_truthy (art_author a)) eqn:Ha.
    + rewrite decide_True by done. set_solver.
    + rewrite decide_False by congruence. done.
Qed.

Lemma type_counts (A : list Article) :
  (length (filter (fun a => art_type a = Some "news") A)
   + length (filter (fun a => art_type a = Some "blog") A)
   <= length A)%nat
  /\ (Forall (fun a => art_type a = Some "news" \/ art_type a = Some "blog") A ->
      length (filter (fun a => art_type a = Some "news") A)
      + length (filter (fun a => art_type a = Some "blog") A)
      = length A).
Proof.
  induction A as [|a A [IHle IHeq]]; [done|].
  rewrite !filter_cons.
  destruct (decide (art_type a = Some "news")) as [Hn|Hn].
  - rewrite decide_False by congruence. cbn [length]. split; [lia|].
    intros [_ HA]%Forall_cons. specialize (IHeq HA). lia.
  - destruct (decide (art_type a = Some "blog")) as [Hb|Hb]; cbn [length].
    + split; [lia|]. intros [_ HA]%Forall_cons. specialize (IHeq HA). lia.
    + split; [lia|]. intros [[?|?] _]%Forall_cons; done.
Qed.

(** X30.  The statistics of the dashboard agree with the payout
    aggregates: the author count never exceeds the number of aggregates and
    equals it when every article names an author (an article without one
    still gets an aggregate but is not counted as an author); news and blog
    counts together never exceed the total and make it up when every
    article is typed ['news'] or ['blog']. *)
Theorem stats_agree_with_payouts {num : Type} `{JsNumber num}
    (parseDate : string -> option Z) (st : PayoutState num) (A : list Article) :
  (authorCount (dashboardStats parseDate A)
   <= length (authorPayouts (calculatePayouts st A)))%nat
  /\ (newsCount (dashboardStats parseDate A)
      + blogCount (dashboardStats parseDate A)
      <= totalCount (dashboardStats parseDate A))%nat
  /\ (Forall (fun a => str_truthy (art_author a) = true) A ->
      authorCount (dashboardStats parseDate A)
      = length (authorPayouts (calculatePayouts st A)))
  /\ (Forall (fun a => art_type a = Some "news" \/ art_type a = Some "blog") A ->
      newsCount (dashboardStats parseDate A)
      + blogCount (dashboardStats parseDate A)
      = totalCount (dashboardStats parseDate A)).
Proof.
  unfold dashboardStats. cbv zeta.
  cbn [authorCount newsCount blogCount totalCount].
  rewrite uniqueAuthors_fold, calculatePayouts_aggregates, length_fmap.
  set (authors := art_author <$> A).
  assert (Hdistinct : size (list_to_set (C := gset (option string)) authors)
                      = length (first_occurrence_order authors)).
  { rewrite <- (size_list_to_set (C := gset (option string))
                  (first_occurrence_order authors))
      by apply NoDup_first_occurrence_order.
    f_equal. apply set_eq. intros x.
    by rewrite !elem_of_list_to_set, elem_of_first_occurrence_order. }
  destruct (type_counts A) as [Hle Heq].
  split; [|split; [exact Hle|split; [|exact Heq]]].
  - rewrite <- Hdistinct. apply subseteq_size. intros x.
    rewrite elem_of_union, !elem_of_list_to_set, list_elem_of_filter.
    set_solver.
  - intros Hall. rewrite <- Hdistinct. f_equal. apply set_eq. intros x.
    rewrite elem_of_union, !elem_of_list_to_set, list_elem_of_filter.
    split; [set_solver|]. intros Hx. left. split; [|done].
    apply list_elem_of_fmap in Hx as (a & -> & Ha).
    by eapply Forall_forall in Hall.
Qed.

(** ** Credentials sign-in *)

(** [authorize] signs in exactly the two known pairs of email and
    password, each as its own user; in particular the role ['admin'] is
    handed out only for the admin's email with the admin's password. *)
Theorem authorize_known_pairs (credentials : option (option string * option string))
    (u : SessionUser) :
  authorize credentials = Some u
  <-> (credentials = Some (Some "admin@example.com", Some "admin123")
       /\ u = {| su_id := "1"; su_name := "Admin User";
                 su_email := "admin@example.com"; su_role := "admin" |})
      \/ (credentials = Some (Some "user@example.com", Some "user123")
          /\ u = {| su_id := "2"; su_name := "Regular User";
                    su_email := "user@example.com"; su_role := "user" |}).
Proof.
  split.
  - unfold authorize. destruct credentials as [[[email|] [password|]]|];
      try discriminate.
    destruct (negb (str_truthy (Some email)) || negb (str_truthy (Some password)));
      [discriminate|].
    unfold users. cbn [list_find fmap option_fmap option_map prod_map].
    destruct (decide (user_email _ = email)) as [<-|Hne1]; cbn.
    + case_bool_decide as Hpw; cbn; [|discriminate].
      intros [= <-]. left. by rewrite <- Hpw.
    + destruct (decide (_ = email)) as [<-|Hne2]; cbn; [|discriminate].
      case_bool_decide as Hpw; cbn; [|discriminate].
      intros [= <-]. right. by rewrite <- Hpw.
  - by intros [[-> ->]|[-> ->]]; vm_compute.
Qed.

(** Three presses of the theme switch come back to the theme one started
    from, after passing through the two others. *)
Lemma toggleTheme_cycle (t : Theme) :
  toggleTheme (toggleTheme (toggleTheme t)) = t
  /\ toggleTheme t <> t /\ toggleTheme (toggleTheme t) <> t.
Proof. by destruct t. Qed.

(** ** The further properties at sample inputs *)

Lemma aggregates_follow_rates_witness :
  authorPayouts (fold_left payoutReducer local_actions initialState)
  = authorPayouts
      (calculatePayouts (fold_left payoutReducer local_actions initialState)
         (fold_left batch_after local_actions [])).
Proof.
  apply (aggregates_follow_rates local_actions initialState []).
  - reflexivity.
  - repeat constructor.
Defined.

Lemma filterNews_conjunction_witness :
  filteredArticles
    (filterNews parseIsoDate one_article_state
       (setSearchQuery (setAuthorFilter filterInitialState (Some "a")) "Article"))
  = filter
      (fun a =>
         matches parseIsoDate
           (setSearchQuery (setAuthorFilter filterInitialState (Some "a"))
              "Article") a
         = true)
      (articles one_article_state).
Proof.
  apply (filterNews_conjunction parseIsoDate one_article_state
           (setSearchQuery (setAuthorFilter filterInitialState (Some "a"))
              "Article"));
    reflexivity.
Defined.

Lemma filterNews_case_insensitive_witness :
  filteredArticles
    (filterNews parseIsoDate one_article_state
       (setSearchQuery (setAuthorFilter filterInitialState (Some "a")) "Article"))
  = filteredArticles
      (filterNews parseIsoDate one_article_state
         (setSearchQuery (setAuthorFilter filterInitialState (Some "A")) "ARTICLE")).
Proof.
  apply (filterNews_case_insensitive parseIsoDate one_article_state
           filterInitialState "a" "A" "Article" "ARTICLE"); reflexivity.
Defined.

Lemma articles_round_trip_witness :
  exists got,
    (getArticles no_errors
       (saveArticles no_errors scenario_articles (None : option (Database Z))).2).1
    = Resolved got
    /\ got ≡ₚ scenario_articles /\ Sorted id_le got.
Proof.
  apply (articles_round_trip (num := Z) no_errors no_errors scenario_articles None
           (saveArticles no_errors scenario_articles None).2);
    [vm_compute; reflexivity|reflexivity|reflexivity].
Defined.

Lemma saveArticles_rolled_back_witness :
  (getArticles no_errors
     (saveArticles no_errors clashing_articles cached_storage).2).1
  = (getArticles no_errors cached_storage).1.
Proof.
  apply (saveArticles_rolled_back (num := Z) no_errors no_errors clashing_articles
           cached_storage "ConstraintError").
  - repeat constructor; by eexists.
  - vm_compute. reflexivity.
Defined.

Lemma saveArticles_missing_id_witness :
  (exists reason,
      (saveArticles no_errors
         ([ mkArticle "2" "B" "blog" ] ++ provider_article
          :: [ mkArticle "3" "A" "blog" ])
         cached_storage).1
      = Rejected reason)
  /\ exists got,
       (getArticles no_errors
          (saveArticles no_errors
             ([ mkArticle "2" "B" "blog" ] ++ provider_article
              :: [ mkArticle "3" "A" "blog" ])
             cached_storage).2).1
       = Resolved got
       /\ got ≡ₚ [ mkArticle "2" "B" "blog" ].
Proof.
  apply (saveArticles_missing_id (num := Z) no_errors no_errors
           [ mkArticle "2" "B" "blog" ] [ mkArticle "3" "A" "blog" ]
           provider_article cached_storage);
    try reflexivity.
  - repeat constructor; by eexists.
  - apply NoDup_singleton.
Defined.

Lemma payouts_round_trip_witness :
  (savePayouts no_errors
     (authorPayouts (calculatePayouts initialState scenario_articles)) None).1
  = Resolved ()
  /\ exists got,
       (getPayouts no_errors
          (savePayouts no_errors
             (authorPayouts (calculatePayouts initialState scenario_articles))
             None).2).1
       = Resolved got
       /\ got ≡ₚ authorPayouts (calculatePayouts initialState scenario_articles).
Proof.
  apply (payouts_round_trip no_errors no_errors initialState scenario_articles None);
    try reflexivity.
  repeat constructor; by eexists.
Defined.

Lemma clearDatabase_empties_witness :
  (getArticles no_errors (clearDatabase no_errors cached_storage).2).1
  = Resolved []
  /\ (getPayouts no_errors (clearDatabase no_errors cached_storage).2).1
     = Resolved []
  /\ (getPayoutRates no_errors (clearDatabase no_errors cached_storage).2).1
     = Resolved None.
Proof.
  apply (clearDatabase_empties no_errors no_errors cached_storage
           (clearDatabase no_errors cached_storage).2);
    reflexivity.
Defined.

Lemma route_articles_well_formed_witness :
  Forall well_formed_article route_world_articles
  /\ articles (fetchNewsSuccess emptyNewsState
                 (PayloadArray (JsObject <$> route_world_articles)))
     = route_world_articles
  /\ exists raw,
       one_article_provider
         (if bool_decide (str_or (Some "mixed") "headlines" = "headlines")
          then TopHeadlines (str_or None "general")
          else Everything
                 (if bool_decide (str_or (Some "mixed") "headlines" = "blog")
                  then "technology blog" else "technology news"))
       = HttpResponse (Some (Some raw))
       /\ length route_world_articles = length raw.
Proof.
  apply (route_articles_well_formed None (Some "mixed") one_article_provider
           (fun _ => 4000%nat) (fun _ => "1970-01-01T00:00:04.000Z")
           route_world_articles emptyNewsState).
  reflexivity.
Defined.

Lemma mediated_articles_are_blogs_witness :
  Forall (fun a => art_type a = Some "blog") route_world_articles
  /\ exists raw, one_article_provider (Everything "technology news")
                 = HttpResponse (Some (Some raw)).
Proof.
  apply (mediated_articles_are_blogs direct_only_world one_article_provider
           (fun _ => 4000%nat) (fun _ => "1970-01-01T00:00:04.000Z")
           route_world_articles).
  reflexivity.
Defined.

Lemma isOnline_sound_witness :
  has_navigator (browser direct_only_world) = true
  /\ navigator_onLine (browser direct_only_world) = true
  /\ (has_window (browser direct_only_world) = true ->
      forall items, localStorage (browser direct_only_world) = Some items ->
        items !! "force_offline" <> Some "true"
        /\ (NODE_ENV (browser direct_only_world) = "development" ->
            items !! "force_mock_data" <> Some "true")).
Proof.
  apply (isOnline_sound (browser direct_only_world)). reflexivity.
Defined.

Lemma cache_holds_network_articles_witness :
  (forall a, a ∈ route_world_articles ->
     a ∈ [ mkArticle "1" "A" "news" ]
     \/ (exists mediated,
           fetchFromServerRoute route_world "mixed" = Resolved mediated
           /\ a ∈ mediated)
     \/ a ∈ direct_articles route_world)
  /\ (forall written,
        (fetchAllArticles (on_storage no_errors route_world cached_storage)).2
        = Some written ->
        (fetchAllArticles (on_storage no_errors route_world cached_storage)).1
        = Resolved written
        /\ route_world_articles ≡ₚ written).
Proof.
  apply (cache_holds_network_articles no_errors no_errors route_world
           cached_storage [ mkArticle "1" "A" "news" ] route_world_articles).
  - vm_compute. reflexivity.
  - vm_compute. reflexivity.
Defined.

Lemma mediated_fetch_wins_witness :
  fetchAllArticles route_world
  = (Resolved route_world_articles,
     if isOnline (browser route_world) then Some route_world_articles else None).
Proof.
  apply (mediated_fetch_wins route_world route_world_articles).
  - reflexivity.
  - discriminate.
  - intros _. reflexivity.
Defined.

Lemma failed_cache_write_discards_fetch_witness :
  fetchAllArticles failing_write_world
  = fetchAllArticles (with_route_down failing_write_world).
Proof.
  apply (failed_cache_write_discards_fetch failing_write_world
           route_world_articles "QuotaExceededError").
  - reflexivity.
  - discriminate.
  - reflexivity.
  - reflexivity.
Defined.

Lemma direct_fetch_result_witness :
  fetchAllArticles direct_only_world
  = (Resolved (direct_articles direct_only_world),
     Some (direct_articles direct_only_world)).
Proof.
  apply (direct_fetch_result direct_only_world).
  - reflexivity.
  - vm_compute. discriminate.
  - reflexivity.
Defined.

Lemma no_api_key_no_direct_fetch_witness :
  fetchAllArticles offline_world
  = (Resolved
       match cache_read offline_world with
       | Resolved cached =>
           if (0 <? length cached)%nat then cached
           else getMockArticles offline_world
       | Rejected _ => getMockArticles offline_world
       end, None).
Proof.
  apply (no_api_key_no_direct_fetch offline_world); reflexivity.
Defined.

Lemma direct_fetch_without_ids_wipes_cache_witness :
  fetchAllArticles (on_storage no_errors direct_only_world cached_storage)
  = (Resolved (getMockArticles direct_only_world), None)
  /\ (getArticles no_errors
        (storage_after_direct no_errors direct_only_world cached_storage).2).1
     = Resolved [].
Proof.
  apply (direct_fetch_without_ids_wipes_cache (num := Z) no_errors
           direct_only_world cached_storage provider_article [] "Network Error");
    reflexivity.
Defined.

Lemma pager_shows_neighbours_witness :
  (PageNumber 6 ∈ getPageNumbers 5 10
   <-> (1 <= 6 <= 10)%Z
       /\ (6%Z = 1%Z \/ 6%Z = 10%Z \/ (5 - 1 <= 6 <= 5 + 1)%Z))
  /\ (Ellipsis ∈ getPageNumbers 5 10 <-> (3 < 5)%Z \/ (5 < 10 - 2)%Z).
Proof.
  apply (pager_shows_neighbours 5 10 6); lia.
Defined.
